(** * The post-creation handler and the API stack of the RestAPI repository

    A shallow embedding of

    - [resources/handlers/posts/create.ts]: the [create] handler, and
    - the CDK stack [RestApiStack] (API Gateway, Lambda, DynamoDB),

    together with the parts of the JavaScript run time and of the AWS
    services that the handler calls: [JSON.parse], [JSON.stringify], object
    spread, [crypto.randomUUID], [process.env] and the DynamoDB document
    client.  JavaScript strings are sequences of UTF-16 code units, objects
    handed to DynamoDB are finite maps from attribute names to values. *)

From Stdlib Require Import String Ascii.
From stdpp Require Import gmap list fin_maps pretty.

Set Default Proof Using "Type".
Set Warnings "-register-all".
Local Open Scope N_scope.

(** ** JavaScript strings *)

(** A JavaScript string is a sequence of UTF-16 code units. *)
Abbreviation jsstring := (list N).

(** The JavaScript string of an ASCII text. *)
Definition str (s : string) : jsstring :=
  map N_of_ascii (list_ascii_of_string s).

(** The code unit of the double quote. *)
Definition dquote : N := 34.

(** ** JSON values *)

(** A number is kept as the text of its literal: the handler never looks
    inside a number, and the conversion to a binary64 value is not part of
    this development. *)
Inductive json : Type :=
| JNull
| JBool (b : bool)
| JNum (lit : jsstring)
| JStr (s : jsstring)
| JArr (items : list json)
| JObj (props : list (jsstring * json)).

(** The properties of an object are listed in the order of the source text;
    when a name occurs twice the later entry is the one in force. *)

(** ** [JSON.parse]: the lexer *)

Module Lexer.

Inductive token : Type :=
| TLBrace | TRBrace | TLBrack | TRBrack | TColon | TComma
| TString (s : jsstring)
| TNumber (lit : jsstring)
| TTrue | TFalse | TNull.

(** Where the lexer stands inside a number literal: an optional minus
    sign; a zero, or a digit from 1 to 9 and further digits; optionally a
    dot and one digit or more; optionally an [e] or [E], an optional sign
    and one digit or more. *)
Inductive numst : Type :=
| NMinus | NZero | NInt | NDot | NFrac | NE | NESign | NExp.

Inductive lexst : Type :=
| LIdle
| LStr (acc : jsstring)
| LEsc (acc : jsstring)
| LHex (acc : jsstring) (todo : nat) (v : N)
| LNum (st : numst) (acc : jsstring)
| LWord (rest : jsstring) (tok : token).

Definition is_ws (c : N) : bool :=
  (c =? 32) || (c =? 9) || (c =? 10) || (c =? 13).

Definition is_digit (c : N) : bool := (48 <=? c) && (c <=? 57).

Definition is_digit19 (c : N) : bool := (49 <=? c) && (c <=? 57).

Definition hex_value (c : N) : option N :=
  if is_digit c then Some (c - 48)
  else if (97 <=? c) && (c <=? 102) then Some (c - 87)
  else if (65 <=? c) && (c <=? 70) then Some (c - 55)
  else None.

Definition num_accepting (st : numst) : bool :=
  match st with
  | NZero | NInt | NFrac | NExp => true
  | NMinus | NDot | NE | NESign => false
  end.

Definition is_e (c : N) : bool := (c =? 101) || (c =? 69).

Definition num_step (st : numst) (c : N) : option numst :=
  match st with
  | NMinus => if c =? 48 then Some NZero
              else if is_digit19 c then Some NInt else None
  | NZero => if c =? 46 then Some NDot
             else if is_e c then Some NE else None
  | NInt => if is_digit c then Some NInt
            else if c =? 46 then Some NDot
            else if is_e c then Some NE else None
  | NDot => if is_digit c then Some NFrac else None
  | NFrac => if is_digit c then Some NFrac
             else if is_e c then Some NE else None
  | NE => if (c =? 43) || (c =? 45) then Some NESign
          else if is_digit c then Some NExp else None
  | NESign => if is_digit c then Some NExp else None
  | NExp => if is_digit c then Some NExp else None
  end.

(** One code unit read between two tokens. *)
Definition idle_step (c : N) : option (lexst * list token) :=
  if is_ws c then Some (LIdle, [])
  else if c =? 123 then Some (LIdle, [TLBrace])
  else if c =? 125 then Some (LIdle, [TRBrace])
  else if c =? 91 then Some (LIdle, [TLBrack])
  else if c =? 93 then Some (LIdle, [TRBrack])
  else if c =? 58 then Some (LIdle, [TColon])
  else if c =? 44 then Some (LIdle, [TComma])
  else if c =? dquote then Some (LStr [], [])
  else if c =? 45 then Some (LNum NMinus [c], [])
  else if c =? 48 then Some (LNum NZero [c], [])
  else if is_digit19 c then Some (LNum NInt [c], [])
  else if c =? 116 then Some (LWord (str "rue") TTrue, [])
  else if c =? 102 then Some (LWord (str "alse") TFalse, [])
  else if c =? 110 then Some (LWord (str "ull") TNull, [])
  else None.

(** The code unit denoted by a one-letter escape. *)
Definition escape_unit (c : N) : option N :=
  if (c =? dquote) || (c =? 92) || (c =? 47) then Some c
  else if c =? 98 then Some 8
  else if c =? 102 then Some 12
  else if c =? 110 then Some 10
  else if c =? 114 then Some 13
  else if c =? 116 then Some 9
  else None.

(** One code unit of the input: the next state and the tokens completed.
    The accumulators hold the text read so far in reverse. *)
Definition lex_step (st : lexst) (c : N) : option (lexst * list token) :=
  match st with
  | LIdle => idle_step c
  | LStr acc =>
      if c =? dquote then Some (LIdle, [TString (rev acc)])
      else if c =? 92 then Some (LEsc acc, [])
      else if c <? 32 then None
      else Some (LStr (c :: acc), [])
  | LEsc acc =>
      if c =? 117 then Some (LHex acc 3 0, [])
      else match escape_unit c with
           | Some u => Some (LStr (u :: acc), [])
           | None => None
           end
  | LHex acc todo v =>
      match hex_value c with
      | Some d =>
          match todo with
          | O => Some (LStr ((16 * v + d) :: acc), [])
          | S k => Some (LHex acc k (16 * v + d), [])
          end
      | None => None
      end
  | LNum n acc =>
      match num_step n c with
      | Some n' => Some (LNum n' (c :: acc), [])
      | None =>
          if num_accepting n then
            match idle_step c with
            | Some (st', toks) => Some (st', TNumber (rev acc) :: toks)
            | None => None
            end
          else None
      end
  | LWord rest tok =>
      match rest with
      | [] =>
          match idle_step c with
          | Some (st', toks) => Some (st', tok :: toks)
          | None => None
          end
      | r :: rest' =>
          if c =? r then Some (LWord rest' tok, []) else None
      end
  end.

(** The end of the input: only a number or a finished word may be pending. *)
Definition lex_end (st : lexst) : option (list token) :=
  match st with
  | LIdle => Some []
  | LNum n acc => if num_accepting n then Some [TNumber (rev acc)] else None
  | LWord [] tok => Some [tok]
  | _ => None
  end.

Fixpoint lex (st : lexst) (input : jsstring) : option (list token) :=
  match input with
  | [] => lex_end st
  | c :: input' =>
      match lex_step st c with
      | Some (st', toks) =>
          match lex st' input' with
          | Some more => Some (toks ++ more)
          | None => None
          end
      | None => None
      end
  end.

Definition tokenize (input : jsstring) : option (list token) :=
  lex LIdle input.

End Lexer.

(** ** [JSON.parse]: the grammar *)

Module Parser.
Import Lexer.

(** The containers that are still open, innermost first.  Their finished
    elements are kept in reverse. *)
Inductive frame : Type :=
| FArr (acc : list json)
| FObj (acc : list (jsstring * json))
| FField (acc : list (jsstring * json)) (key : jsstring).

(** What the grammar allows next. *)
Inductive expect : Type :=
| EValue
| EValueOrClose
| EKeyOrClose
| EKey
| EColon (key : jsstring)
| ESep
| EDone (v : json).

Definition pstate : Type := expect * list frame.

(** A finished value goes to the innermost open container, or is the
    result when none is open. *)
Definition deliver (v : json) (stack : list frame) : option pstate :=
  match stack with
  | [] => Some (EDone v, [])
  | FArr acc :: stack' => Some (ESep, FArr (v :: acc) :: stack')
  | FField acc key :: stack' => Some (ESep, FObj ((key, v) :: acc) :: stack')
  | FObj _ :: _ => None
  end.

Definition start_value (tok : token) (stack : list frame) : option pstate :=
  match tok with
  | TString s => deliver (JStr s) stack
  | TNumber lit => deliver (JNum lit) stack
  | TTrue => deliver (JBool true) stack
  | TFalse => deliver (JBool false) stack
  | TNull => deliver JNull stack
  | TLBrack => Some (EValueOrClose, FArr [] :: stack)
  | TLBrace => Some (EKeyOrClose, FObj [] :: stack)
  | TRBrace | TRBrack | TColon | TComma => None
  end.

Definition close_array (stack : list frame) : option pstate :=
  match stack with
  | FArr acc :: stack' => deliver (JArr (rev acc)) stack'
  | _ => None
  end.

Definition close_object (stack : list frame) : option pstate :=
  match stack with
  | FObj acc :: stack' => deliver (JObj (rev acc)) stack'
  | _ => None
  end.

Definition parse_step (st : pstate) (tok : token) : option pstate :=
  let (e, stack) := st in
  match e with
  | EValue => start_value tok stack
  | EValueOrClose =>
      match tok with
      | TRBrack => close_array stack
      | _ => start_value tok stack
      end
  | EKeyOrClose =>
      match tok with
      | TString key => Some (EColon key, stack)
      | TRBrace => close_object stack
      | _ => None
      end
  | EKey =>
      match tok with
      | TString key => Some (EColon key, stack)
      | _ => None
      end
  | EColon key =>
      match tok, stack with
      | TColon, FObj acc :: stack' => Some (EValue, FField acc key :: stack')
      | _, _ => None
      end
  | ESep =>
      match tok with
      | TComma =>
          match stack with
          | FArr _ :: _ => Some (EValue, stack)
          | FObj _ :: _ => Some (EKey, stack)
          | _ => None
          end
      | TRBrack => close_array stack
      | TRBrace => close_object stack
      | _ => None
      end
  | EDone _ => None
  end.

Fixpoint parse_tokens (st : pstate) (toks : list token) : option json :=
  match toks with
  | [] => match st with
          | (EDone v, []) => Some v
          | _ => None
          end
  | tok :: toks' =>
      match parse_step st tok with
      | Some st' => parse_tokens st' toks'
      | None => None
      end
  end.

End Parser.

(** [JSON.parse text]: [None] stands for the [SyntaxError] it throws. *)
Definition JSON_parse (text : jsstring) : option json :=
  match Lexer.tokenize text with
  | Some toks => Parser.parse_tokens (Parser.EValue, []) toks
  | None => None
  end.

(** ** [JSON.stringify] *)

(** Lower-case hexadecimal digit of a value below 16. *)
Definition hex_digit (d : N) : N := if d <? 10 then 48 + d else 87 + d.

(** The six-character escape of a code unit. *)
Definition unicode_escape (c : N) : jsstring :=
  [92; 117; hex_digit (c / 4096 mod 16); hex_digit (c / 256 mod 16);
   hex_digit (c / 16 mod 16); hex_digit (c mod 16)].

Definition is_high_surrogate (c : N) : bool := (55296 <=? c) && (c <=? 56319).
Definition is_low_surrogate (c : N) : bool := (56320 <=? c) && (c <=? 57343).

(** The characters of a string between its quotes: the short escapes, the
    control characters and the surrogates that have no partner escaped. *)
Fixpoint quote_units (s : jsstring) : jsstring :=
  match s with
  | [] => []
  | c :: s' =>
      if c =? 8 then [92; 98] ++ quote_units s'
      else if c =? 9 then [92; 116] ++ quote_units s'
      else if c =? 10 then [92; 110] ++ quote_units s'
      else if c =? 12 then [92; 102] ++ quote_units s'
      else if c =? 13 then [92; 114] ++ quote_units s'
      else if c =? dquote then [92; dquote] ++ quote_units s'
      else if c =? 92 then [92; 92] ++ quote_units s'
      else if c <? 32 then unicode_escape c ++ quote_units s'
      else if is_high_surrogate c then
        match s' with
        | d :: s'' =>
            if is_low_surrogate d then c :: d :: quote_units s''
            else unicode_escape c ++ quote_units s'
        | [] => unicode_escape c
        end
      else if is_low_surrogate c then unicode_escape c ++ quote_units s'
      else c :: quote_units s'
  end.

Definition quote (s : jsstring) : jsstring :=
  [dquote] ++ quote_units s ++ [dquote].

(** The texts of a list, separated by commas. *)
Fixpoint commas (parts : list jsstring) : jsstring :=
  match parts with
  | [] => []
  | [p] => p
  | p :: parts' => p ++ [44] ++ commas parts'
  end.

(** [JSON.stringify value], for a value built from object and array
    literals, strings, booleans and [null], which is what the handler
    passes to it.  For a number the literal is given back: that is the
    text of [JSON.stringify] only when the literal is the canonical form
    of its value, and no property below stringifies a number. *)
Fixpoint JSON_stringify (v : json) : jsstring :=
  match v with
  | JNull => str "null"
  | JBool true => str "true"
  | JBool false => str "false"
  | JNum lit => lit
  | JStr s => quote s
  | JArr items => [91] ++ commas (List.map JSON_stringify items) ++ [93]
  | JObj props =>
      [123]
      ++ commas (List.map (fun kv => match kv with
                                     | (k, x) => quote k ++ [58] ++ JSON_stringify x
                                     end) props)
      ++ [125]
  end.

(** ** Objects as the handler builds them *)

(** A JavaScript object used as a record: attribute name to value.  This is
    also what the DynamoDB document client takes and gives back as an item. *)
Abbreviation Item := (gmap jsstring json).

(** The own enumerable properties of a value, in the order in which a
    spread copies them: the entries of an object, the indices of an array,
    the indices of a string (one code unit each); [null], booleans and
    numbers have none. *)
Definition own_props (v : json) : list (jsstring * json) :=
  match v with
  | JObj props => props
  | JArr items => imap (fun i x => (str (pretty i), x)) items
  | JStr s => imap (fun i c => (str (pretty i), JStr [c])) s
  | JNull | JBool _ | JNum _ => []
  end.

(** [{ ...target, ...v }]: every own property of [v] is defined on the
    object under construction, replacing an attribute of the same name. *)
Definition spread (target : Item) (v : json) : Item :=
  foldl (fun obj kv => <[kv.1 := kv.2]> obj) target (own_props v).

(** ** The world of a handler invocation *)

(** Errors of the DynamoDB service and of the way to it. *)
Inductive StoreError : Type :=
| ValidationException
| ResourceNotFoundException
| AccessDeniedException
| ProvisionedThroughputExceededException
| InternalServerError
| NetworkingError.

(** What an asynchronous function can reject with. *)
Inductive exn : Type :=
| SyntaxError
| StoreFailure (e : StoreError).

Record PutCommandInput : Type := {
  TableName : option jsstring;
  Item_ : Item
}.

Record GetCommandInput : Type := {
  get_TableName : option jsstring;
  Key : Item
}.

Inductive command : Type :=
| PutCommand (input : PutCommandInput)
| GetCommand (input : GetCommandInput).

(** The partition key of the table, as [RestApiStack] declares it:
    [partitionKey: { name: 'pk', type: AttributeType.STRING }]. *)
Definition partition_key : jsstring := str "pk".

(** A table: its items by the value of their partition key. *)
Abbreviation Table := (gmap jsstring Item).

(** The state a handler runs in.  [uuids] and [faults] are the answers of
    the outside: [uuids n] is what the [n]-th call of [randomUUID] returns,
    [faults n] is the error, if any, with which the [n]-th call of
    [dynamodb.send] fails for a reason that is not decided here: the
    network, throttling, permissions, and also an item that the document
    client cannot marshal (a number that is infinite or not safe) or that
    the service finds too large. *)
Record World : Type := {
  env : gmap jsstring jsstring;
  tables : gmap jsstring Table;
  sent : list command;
  uuids : nat -> jsstring;
  drawn : nat;
  faults : nat -> option StoreError
}.

Definition set_tables (t : gmap jsstring Table) (w : World) : World :=
  {| env := env w; tables := t; sent := sent w;
     uuids := uuids w; drawn := drawn w; faults := faults w |}.

Definition set_sent (l : list command) (w : World) : World :=
  {| env := env w; tables := tables w; sent := l;
     uuids := uuids w; drawn := drawn w; faults := faults w |}.

Definition set_drawn (n : nat) (w : World) : World :=
  {| env := env w; tables := tables w; sent := sent w;
     uuids := uuids w; drawn := n; faults := faults w |}.

Definition set_env (e : gmap jsstring jsstring) (w : World) : World :=
  {| env := e; tables := tables w; sent := sent w;
     uuids := uuids w; drawn := drawn w; faults := faults w |}.

(** ** Asynchronous computations *)

Inductive outcome (A : Type) : Type :=
| Returned (a : A)
| Thrown (e : exn).
Arguments Returned {A} a.
Arguments Thrown {A} e.

(** An [async] function body: it runs in a world, changes it, and either
    returns or rejects. *)
Definition M (A : Type) : Type := World -> outcome A * World.

Definition ret {A} (a : A) : M A := fun w => (Returned a, w).

Definition throw {A} (e : exn) : M A := fun w => (Thrown e, w).

Definition bind {A B} (m : M A) (k : A -> M B) : M B :=
  fun w =>
    match m w with
    | (Returned a, w') => k a w'
    | (Thrown e, w') => (Thrown e, w')
    end.

Notation "'let*' x ':=' m 'in' k" := (bind m (fun x => k))
  (at level 10, x name, m at level 100, k at level 200).

(** [crypto.randomUUID()]. *)
Definition randomUUID : M jsstring :=
  fun w => (Returned (uuids w (drawn w)), set_drawn (S (drawn w)) w).

(** [process.env.NAME]: [None] is [undefined]. *)
Definition process_env (name : jsstring) : M (option jsstring) :=
  fun w => (Returned (env w !! name), w).

(** [JSON.parse(text)] inside a function: a [SyntaxError] is thrown. *)
Definition JSON_parse_or_throw (text : jsstring) : M json :=
  match JSON_parse text with
  | Some v => ret v
  | None => throw SyntaxError
  end.

(** ** The DynamoDB document client *)

(** The value of the partition key of an item: a non-empty string. *)
Definition key_of (item : Item) : option jsstring :=
  match item !! partition_key with
  | Some (JStr (c :: k)) => Some (c :: k)
  | _ => None
  end.

(** What the service does with a put that it does not refuse on the
    grounds left to [faults]: the table must exist and the item must have
    a key of the type of the partition key; the item then replaces the one
    with the same key in the table.  These conditions are necessary for a
    put to succeed; they are sufficient only together with the absence of
    a fault. *)
Definition put_item (input : PutCommandInput) (db : gmap jsstring Table)
  : StoreError + gmap jsstring Table :=
  match TableName input with
  | None => inl ValidationException
  | Some name =>
      match db !! name with
      | None => inl ResourceNotFoundException
      | Some table =>
          match key_of (Item_ input) with
          | None => inl ValidationException
          | Some k => inr (<[name := <[k := Item_ input]> table]> db)
          end
      end
  end.

(** What the service answers to a get that reaches it. *)
Definition get_item (input : GetCommandInput) (db : gmap jsstring Table)
  : StoreError + option Item :=
  match get_TableName input with
  | None => inl ValidationException
  | Some name =>
      match db !! name with
      | None => inl ResourceNotFoundException
      | Some table =>
          match key_of (Key input) with
          | None => inl ValidationException
          | Some k => inr (table !! k)
          end
      end
  end.

(** [dynamodb.send(new PutCommand(input))]: the command is sent once. *)
Definition send_put (input : PutCommandInput) : M unit :=
  fun w =>
    let w1 := set_sent (sent w ++ [PutCommand input]) w in
    match faults w (length (sent w)) with
    | Some e => (Thrown (StoreFailure e), w1)
    | None =>
        match put_item input (tables w) with
        | inl e => (Thrown (StoreFailure e), w1)
        | inr db => (Returned tt, set_tables db w1)
        end
    end.

(** [dynamodb.send(new GetCommand(input))], giving the [Item] of the
    answer. *)
Definition send_get (input : GetCommandInput) : M (option Item) :=
  fun w =>
    let w1 := set_sent (sent w ++ [GetCommand input]) w in
    match faults w (length (sent w)) with
    | Some e => (Thrown (StoreFailure e), w1)
    | None =>
        match get_item input (tables w) with
        | inl e => (Thrown (StoreFailure e), w1)
        | inr found => (Returned found, w1)
        end
    end.

(** ** [resources/handlers/posts/create.ts] *)

Record Response : Type := {
  statusCode : N;
  body : jsstring
}.

(** The object literal [{ message: text }]. *)
Definition message (text : string) : json :=
  JObj [(str "message", JStr (str text))].

(** The namespace prefix of the keys of posts. *)
Definition POST_prefix : jsstring := str "POST#".

(** The object literal [{ pk: `POST#${uuid}`, ...bodyParsed }]. *)
Definition new_item (uuid : jsstring) (bodyParsed : json) : Item :=
  spread {[ str "pk" := JStr (POST_prefix ++ uuid) ]} bodyParsed.

(** [!body] for [body: string | null]: [null] and the empty string are
    falsy, every other string is truthy. *)
Definition falsy (body : option jsstring) : bool :=
  match body with
  | None | Some [] => true
  | Some (_ :: _) => false
  end.

(** [export async function create(body: string | null)]; [None] is [null].
    Past the guard [body] is a string, [default [] body]. *)
Definition create (body : option jsstring) : M Response :=
  let* uuid := randomUUID in
  if falsy body then
    ret {| statusCode := 400;
           body := JSON_stringify (message "Missing body") |}
  else
    let* bodyParsed := JSON_parse_or_throw (default [] body) in
    let* table_name := process_env (str "TABLE_NAME") in
    let* _ := send_put {| TableName := table_name;
                          Item_ := new_item uuid bodyParsed |} in
    ret {| statusCode := 200;
           body := JSON_stringify (message "Post created") |}.

(** ** The get-one handler *)

(** What a handler that returns a post answers: a message, or a record. *)
Inductive reply : Type :=
| Text (status : N) (text : jsstring)
| Post (status : N) (record : Item).

(** Modelled from the spec: the get-one handler
    ([resources/handlers/posts/get-one.ts]), which is not among the sources.
    The spec, section 4.5: the input is the [id] path parameter; look up the
    record keyed by the namespaced identifier; if it is absent, HTTP 404 with
    the message "Post not found"; if it is present, HTTP 200 with the
    record.  The table is the one the environment names (section 6). *)
Definition getOne (id : jsstring) : M reply :=
  let* table_name := process_env (str "TABLE_NAME") in
  let* found := send_get {| get_TableName := table_name;
                            Key := {[ str "pk" := JStr (POST_prefix ++ id) ]} |} in
  match found with
  | None => ret (Text 404 (JSON_stringify (message "Post not found")))
  | Some record => ret (Post 200 record)
  end.

(** ** The stack: [RestApiStack] *)

Module Cdk.

Inductive AttributeType : Type := BINARY | NUMBER | STRING.
Inductive RemovalPolicy : Type := DESTROY | RETAIN | SNAPSHOT.
Inductive BillingMode : Type := PAY_PER_REQUEST | PROVISIONED.
Inductive ApiKeySourceType : Type := HEADER | AUTHORIZER.

(** A value of the template: a text, or the name a table gets when it is
    deployed ([dbTable.tableName]). *)
Inductive value : Type :=
| Literal (s : jsstring)
| TableNameOf (table : jsstring)
| KeyIdOf (key : jsstring).

Record TableProps : Type := {
  partitionKey_name : jsstring;
  partitionKey_type : AttributeType;
  removalPolicy : RemovalPolicy;
  billingMode : BillingMode
}.

Record CorsOptions : Type := {
  allowOrigins : list jsstring;
  allowMethods : list jsstring
}.

(** [Cors.ALL_ORIGINS] and [Cors.ALL_METHODS]. *)
Definition ALL_ORIGINS : list jsstring := [str "*"].
Definition ALL_METHODS : list jsstring :=
  [str "OPTIONS"; str "GET"; str "PUT"; str "POST"; str "DELETE";
   str "PATCH"; str "HEAD"].

Record RestApiProps : Type := {
  restApiName : jsstring;
  defaultCorsPreflightOptions : option CorsOptions;
  apiKeySourceType : option ApiKeySourceType
}.

Record FunctionProps : Type := {
  entry : jsstring;
  handler : jsstring;
  environment : list (jsstring * value)
}.

Inductive Integration : Type :=
| LambdaIntegration (fn : jsstring)
| MockIntegration.

(** A resource is the list of its path parts from the root. *)
Abbreviation Resource := (list jsstring).

Record Method : Type := {
  resource : Resource;
  httpMethod : jsstring;
  integration : Integration;
  apiKeyRequired : bool
}.

Record UsagePlan : Type := {
  plan_name : jsstring;
  apiStages : list jsstring;
  plan_keys : list jsstring
}.

(** The constructs of a stack with one REST API. *)
Record Template : Type := {
  dynamo_tables : list (jsstring * TableProps);
  rest_api : option (jsstring * RestApiProps);
  api_keys : list jsstring;
  usage_plans : list (jsstring * UsagePlan);
  functions : list (jsstring * FunctionProps);
  read_write_grants : list (jsstring * jsstring);
  resources : list Resource;
  methods : list Method;
  outputs : list (jsstring * value)
}.

Definition empty : Template :=
  {| dynamo_tables := []; rest_api := None; api_keys := []; usage_plans := [];
     functions := []; read_write_grants := []; resources := []; methods := [];
     outputs := [] |}.

(** [new Table(this, id, props)]. *)
Definition new_Table (id : jsstring) (props : TableProps) (t : Template)
  : jsstring * Template :=
  (id,
   {| dynamo_tables := dynamo_tables t ++ [(id, props)];
      rest_api := rest_api t; api_keys := api_keys t;
      usage_plans := usage_plans t; functions := functions t;
      read_write_grants := read_write_grants t; resources := resources t;
      methods := methods t; outputs := outputs t |}).

Definition add_method (m : Method) (t : Template) : Template :=
  {| dynamo_tables := dynamo_tables t; rest_api := rest_api t;
     api_keys := api_keys t; usage_plans := usage_plans t;
     functions := functions t; read_write_grants := read_write_grants t;
     resources := resources t; methods := methods t ++ [m];
     outputs := outputs t |}.

(** [resource.addMethod(httpMethod, integration, { apiKeyRequired })]. *)
Definition addMethod (r : Resource) (http : string) (i : Integration)
    (key_required : bool) (t : Template) : Template :=
  add_method {| resource := r; httpMethod := str http; integration := i;
                apiKeyRequired := key_required |} t.

(** What the library does for a resource of an API that has default CORS
    preflight options: an [OPTIONS] method on a mock integration, which
    asks for no key. *)
Definition addCorsPreflight (r : Resource) (t : Template) : Template :=
  match rest_api t with
  | Some (_, props) =>
      match defaultCorsPreflightOptions props with
      | Some _ => addMethod r "OPTIONS" MockIntegration false t
      | None => t
      end
  | None => t
  end.

Definition add_resource (r : Resource) (t : Template) : Template :=
  {| dynamo_tables := dynamo_tables t; rest_api := rest_api t;
     api_keys := api_keys t; usage_plans := usage_plans t;
     functions := functions t; read_write_grants := read_write_grants t;
     resources := resources t ++ [r]; methods := methods t;
     outputs := outputs t |}.

(** [new RestApi(this, id, props)]: the API and its root resource. *)
Definition new_RestApi (id : jsstring) (props : RestApiProps) (t : Template)
  : jsstring * Template :=
  let t1 :=
    {| dynamo_tables := dynamo_tables t; rest_api := Some (id, props);
       api_keys := api_keys t; usage_plans := usage_plans t;
       functions := functions t; read_write_grants := read_write_grants t;
       resources := resources t; methods := methods t;
       outputs := outputs t |} in
  (id, addCorsPreflight [] (add_resource [] t1)).

(** [api.root], and [parent.addResource(pathPart)]. *)
Definition root : Resource := [].

Definition addResource (parent : Resource) (pathPart : string) (t : Template)
  : Resource * Template :=
  let r := parent ++ [str pathPart] in
  (r, addCorsPreflight r (add_resource r t)).

(** [new ApiKey(this, id)]. *)
Definition new_ApiKey (id : jsstring) (t : Template) : jsstring * Template :=
  (id,
   {| dynamo_tables := dynamo_tables t; rest_api := rest_api t;
      api_keys := api_keys t ++ [id]; usage_plans := usage_plans t;
      functions := functions t; read_write_grants := read_write_grants t;
      resources := resources t; methods := methods t; outputs := outputs t |}).

Definition set_usage_plans (ps : list (jsstring * UsagePlan)) (t : Template)
  : Template :=
  {| dynamo_tables := dynamo_tables t; rest_api := rest_api t;
     api_keys := api_keys t; usage_plans := ps;
     functions := functions t; read_write_grants := read_write_grants t;
     resources := resources t; methods := methods t; outputs := outputs t |}.

(** [new UsagePlan(this, id, { name, apiStages })]: each stage is given by
    its API, whose deployment stage it is. *)
Definition new_UsagePlan (id : jsstring) (name : jsstring)
    (stages : list jsstring) (t : Template) : jsstring * Template :=
  (id,
   set_usage_plans
     (usage_plans t
      ++ [(id, {| plan_name := name; apiStages := stages; plan_keys := [] |})])
     t).

(** [usagePlan.addApiKey(apiKey)]. *)
Definition addApiKey (plan key : jsstring) (t : Template) : Template :=
  set_usage_plans
    (List.map (fun p =>
       if decide (p.1 = plan)
       then (p.1, {| plan_name := plan_name p.2; apiStages := apiStages p.2;
                     plan_keys := plan_keys p.2 ++ [key] |})
       else p) (usage_plans t))
    t.

(** [new NodejsFunction(this, id, props)]. *)
Definition new_NodejsFunction (id : jsstring) (props : FunctionProps)
    (t : Template) : jsstring * Template :=
  (id,
   {| dynamo_tables := dynamo_tables t; rest_api := rest_api t;
      api_keys := api_keys t; usage_plans := usage_plans t;
      functions := functions t ++ [(id, props)];
      read_write_grants := read_write_grants t; resources := resources t;
      methods := methods t; outputs := outputs t |}).

(** [table.grantReadWriteData(fn)]. *)
Definition grantReadWriteData (table fn : jsstring) (t : Template) : Template :=
  {| dynamo_tables := dynamo_tables t; rest_api := rest_api t;
     api_keys := api_keys t; usage_plans := usage_plans t;
     functions := functions t;
     read_write_grants := read_write_grants t ++ [(table, fn)];
     resources := resources t; methods := methods t; outputs := outputs t |}.

(** [new CfnOutput(this, id, { value })]. *)
Definition new_CfnOutput (id : jsstring) (v : value) (t : Template) : Template :=
  {| dynamo_tables := dynamo_tables t; rest_api := rest_api t;
     api_keys := api_keys t; usage_plans := usage_plans t;
     functions := functions t; read_write_grants := read_write_grants t;
     resources := resources t; methods := methods t;
     outputs := outputs t ++ [(id, v)] |}.

(** The constructor of [RestApiStack], statement by statement. *)
Definition RestApiStack : Template :=
  let t := empty in
  (* 1. the DynamoDB table *)
  let '(dbTable, t) :=
    new_Table (str "DbTable")
      {| partitionKey_name := str "pk"; partitionKey_type := STRING;
         removalPolicy := DESTROY; billingMode := PAY_PER_REQUEST |} t in
  (* 2. the REST API, with CORS *)
  let '(api, t) :=
    new_RestApi (str "RestAPI")
      {| restApiName := str "RestAPI";
         defaultCorsPreflightOptions :=
           Some {| allowOrigins := ALL_ORIGINS; allowMethods := ALL_METHODS |};
         apiKeySourceType := Some HEADER |} t in
  (* 3. the API key *)
  let '(apiKey, t) := new_ApiKey (str "ApiKey") t in
  (* 4. the usage plan, and the key added to it *)
  let '(usagePlan, t) :=
    new_UsagePlan (str "UsagePlan") (str "Usage Plan") [api] t in
  let t := addApiKey usagePlan apiKey t in
  (* 5. the Lambda functions *)
  let '(postsLambda, t) :=
    new_NodejsFunction (str "PostsLambda")
      {| entry := str "resources/endpoints/posts.ts"; handler := str "handler";
         environment := [(str "TABLE_NAME", TableNameOf dbTable)] |} t in
  let '(postLambda, t) :=
    new_NodejsFunction (str "PostLambda")
      {| entry := str "resources/endpoints/post.ts"; handler := str "handler";
         environment := [(str "TABLE_NAME", TableNameOf dbTable)] |} t in
  let t := grantReadWriteData dbTable postsLambda t in
  let t := grantReadWriteData dbTable postLambda t in
  (* 7. the resources *)
  let '(posts, t) := addResource root "posts" t in
  let '(post, t) := addResource posts "{id}" t in
  (* 8. the integrations *)
  let postsIntegration := LambdaIntegration postsLambda in
  let postIntegration := LambdaIntegration postLambda in
  (* 9. the methods *)
  let t := addMethod posts "GET" postsIntegration true t in
  let t := addMethod posts "POST" postsIntegration true t in
  let t := addMethod post "GET" postIntegration true t in
  let t := addMethod post "DELETE" postIntegration true t in
  new_CfnOutput (str "API Key ID") (KeyIdOf apiKey) t.

(** The methods that reach a Lambda function: HTTP method, path, function,
    and whether the method asks for an API key. *)
Definition handler_endpoints (t : Template)
  : list (jsstring * Resource * jsstring * bool) :=
  omap (fun m =>
          match integration m with
          | LambdaIntegration fn =>
              Some (httpMethod m, resource m, fn, apiKeyRequired m)
          | MockIntegration => None
          end) (methods t).

(** The source of the API key of the API of a template. *)
Definition key_source (t : Template) : option ApiKeySourceType :=
  match rest_api t with
  | Some (_, props) => apiKeySourceType props
  | None => None
  end.

(** The keys that the usage plans of a template accept for an API. *)
Definition accepted_keys (api : jsstring) (t : Template) : list jsstring :=
  concat (List.map (fun p => if decide (api ∈ apiStages p.2)
                             then plan_keys p.2 else []) (usage_plans t)).

End Cdk.

(** ** Post payloads *)

(** Modelled from the spec: the type [IPost] of [types.ts], which is not
    among the sources.  The spec, section 6: the post payload schema is
    [{title: string, description: string, author: string,
    publicationDate: string}]. *)
Record IPost : Type := {
  title : jsstring;
  description : jsstring;
  author : jsstring;
  publicationDate : jsstring
}.

(** The fields of a payload, as attributes. *)
Definition post_fields (P : IPost) : Item :=
  {[ str "title" := JStr (title P);
     str "description" := JStr (description P);
     str "author" := JStr (author P);
     str "publicationDate" := JStr (publicationDate P) ]}.

(** The value in force for the name [k] in a list of properties: the last
    entry of that name. *)
Fixpoint assoc_last (props : list (jsstring * json)) (k : jsstring)
  : option json :=
  match props with
  | [] => None
  | (k', x) :: props' =>
      match assoc_last props' k with
      | Some y => Some y
      | None => if decide (k' = k) then Some x else None
      end
  end.

(** [v[k]], for an own property of a parsed value. *)
Definition property (v : json) (k : jsstring) : option json :=
  assoc_last (own_props v) k.

(** A parsed body is the payload [P] when its properties are the four
    fields of [P] and no other. *)
Definition is_payload (P : IPost) (v : json) : Prop :=
  forall k, property v k = post_fields P !! k.

(** ** Texts and worlds of the examples *)

(** An ASCII text between double quotes. *)
Definition dq (s : string) : jsstring := [dquote] ++ str s ++ [dquote].

(** The text of the object with the one field [message]. *)
Definition message_text (m : string) : jsstring :=
  str "{" ++ dq "message" ++ str ":" ++ dq m ++ str "}".

(** A deployed world: the variable [TABLE_NAME] names an empty table, the
    identifiers drawn differ from call to call, nothing fails. *)
Definition demo_world : World :=
  {| env := {[ str "TABLE_NAME" := str "RestAPI-DbTable" ]};
     tables := {[ str "RestAPI-DbTable" := ∅ ]};
     sent := [];
     uuids := fun n => str "3f2b8c1e-5d4a-4e6f-9a7b-00000000000" ++ str (pretty n);
     drawn := 0;
     faults := fun _ => None |}.

(** The same world when the service throttles every command. *)
Definition throttled_world : World :=
  {| env := env demo_world; tables := tables demo_world; sent := [];
     uuids := uuids demo_world; drawn := 0;
     faults := fun _ => Some ProvisionedThroughputExceededException |}.

(** The body of the README's example request. *)
Definition demo_post : IPost :=
  {| title := str "Example Post";
     description := str "This is an example post";
     author := str "John Doe";
     publicationDate := str "2025-01-12" |}.

Definition demo_text : jsstring :=
  str "{" ++ dq "title" ++ str ": " ++ dq "Example Post" ++ str ", "
  ++ dq "description" ++ str ": " ++ dq "This is an example post" ++ str ", "
  ++ dq "author" ++ str ": " ++ dq "John Doe" ++ str ", "
  ++ dq "publicationDate" ++ str ": " ++ dq "2025-01-12" ++ str "}".

(** A body that carries an attribute [pk] of its own. *)
Definition pk_text : jsstring :=
  str "{" ++ dq "pk" ++ str ":" ++ dq "POST#mine" ++ str ","
  ++ dq "title" ++ str ":" ++ dq "A" ++ str "}".

(** A body that carries an attribute [id]. *)
Definition id_text : jsstring :=
  str "{" ++ dq "id" ++ str ":" ++ dq "7" ++ str ","
  ++ dq "title" ++ str ":" ++ dq "A" ++ str "}".

(** A body that is not JSON: the object is not closed. *)
Definition broken_text : jsstring :=
  str "{" ++ dq "title" ++ str ":" ++ dq "A".

(** The responses of [create]. *)
Definition missing_body : Response :=
  {| statusCode := 400; body := message_text "Missing body" |}.

Definition post_created : Response :=
  {| statusCode := 200; body := message_text "Post created" |}.

(** The command [create] sends in the world [w] for the parsed body [v]. *)
Definition put_of (w : World) (v : json) : PutCommandInput :=
  {| TableName := env w !! str "TABLE_NAME";
     Item_ := new_item (uuids w (drawn w)) v |}.

(** The object that a body with the four fields of [P], in the order of
    the schema, parses to. *)
Definition post_json (P : IPost) : json :=
  JObj [(str "title", JStr (title P));
        (str "description", JStr (description P));
        (str "author", JStr (author P));
        (str "publicationDate", JStr (publicationDate P))].

(** The world after the send of [create] in the world [w], for the parsed
    body [v]. *)
Definition after_send (w : World) (v : json) : World :=
  (send_put (put_of w v) (set_drawn (S (drawn w)) w)).2.

(** What the text [pk_text] parses to. *)
Definition pk_json : json :=
  JObj [(str "pk", JStr (str "POST#mine")); (str "title", JStr (str "A"))].

(** The record that the body [pk_text] asks for. *)
Definition pk_record : Item :=
  {[ str "pk" := JStr (str "POST#mine"); str "title" := JStr (str "A") ]}.

(** ** Values without numbers and their tokens *)

(** A value in which no number occurs. *)
Fixpoint number_free (v : json) : bool :=
  match v with
  | JNum _ => false
  | JArr items => forallb number_free items
  | JObj props => forallb (fun kv => match kv with (_, x) => number_free x end) props
  | JNull | JBool _ | JStr _ => true
  end.

(** A string with no surrogate outside a pair: a text that the store,
    which keeps strings in UTF-8, can hold as it is. *)
Fixpoint well_formed_utf16 (s : jsstring) : bool :=
  match s with
  | [] => true
  | c :: s' =>
      if is_high_surrogate c then
        match s' with
        | d :: s'' => is_low_surrogate d && well_formed_utf16 s''
        | [] => false
        end
      else negb (is_low_surrogate c) && (c <? 65536) && well_formed_utf16 s'
  end.

(** A payload whose four strings are such texts. *)
Definition text_payload (P : IPost) : bool :=
  well_formed_utf16 (title P) && well_formed_utf16 (description P)
  && well_formed_utf16 (author P) && well_formed_utf16 (publicationDate P).

(** The token lists of some parts, with commas between them. *)
Fixpoint comma_tokens (parts : list (list Lexer.token)) : list Lexer.token :=
  match parts with
  | [] => []
  | [p] => p
  | p :: parts' => p ++ [Lexer.TComma] ++ comma_tokens parts'
  end.

Fixpoint tokens (v : json) : list Lexer.token :=
  match v with
  | JNull => [Lexer.TNull]
  | JBool true => [Lexer.TTrue]
  | JBool false => [Lexer.TFalse]
  | JNum lit => [Lexer.TNumber lit]
  | JStr s => [Lexer.TString s]
  | JArr items =>
      [Lexer.TLBrack] ++ comma_tokens (List.map tokens items) ++ [Lexer.TRBrack]
  | JObj props =>
      [Lexer.TLBrace]
      ++ comma_tokens (List.map (fun kv => match kv with
                                            | (k, x) => Lexer.TString k :: Lexer.TColon :: tokens x
                                            end) props)
      ++ [Lexer.TRBrace]
  end.

(** Induction on a value, with its items and properties. *)
Section json_induction.
Variable P : json -> Prop.
Hypothesis Hnull : P JNull.
Hypothesis Hbool : forall b, P (JBool b).
Hypothesis Hnum : forall lit, P (JNum lit).
Hypothesis Hstr : forall s, P (JStr s).
Hypothesis Harr : forall items, Forall P items -> P (JArr items).
Hypothesis Hobj :
  forall props, Forall (fun kv => P kv.2) props -> P (JObj props).

Fixpoint json_induction (v : json) : P v :=
  match v with
  | JNull => Hnull
  | JBool b => Hbool b
  | JNum lit => Hnum lit
  | JStr s => Hstr s
  | JArr items =>
      Harr items
        ((fix all (l : list json) : Forall P l :=
            match l with
            | [] => @List.Forall_nil _ P
            | x :: l' => @List.Forall_cons _ P x l' (json_induction x) (all l')
            end) items)
  | JObj props =>
      Hobj props
        ((fix all (l : list (jsstring * json)) : Forall (fun kv => P kv.2) l :=
            match l with
            | [] => @List.Forall_nil _ (fun kv => P kv.2)
            | kv :: l' =>
                @List.Forall_cons _ (fun kv => P kv.2) kv l' (json_induction kv.2) (all l')
            end) props)
  end.
End json_induction.

(** What may follow a value in a text: nothing, a comma, or the end of an
    array or of an object. *)
Definition delimited (input : jsstring) : bool :=
  match input with
  | [] => true
  | c :: _ => (c =? 44) || (c =? 93) || (c =? 125)
  end.

(** The text lexes to the tokens, whatever delimited text follows. *)
Definition lexes (text : jsstring) (toks : list Lexer.token) : Prop :=
  forall input,
    delimited input = true ->
    Lexer.lex Lexer.LIdle (text ++ input)
    = match Lexer.lex Lexer.LIdle input with
      | Some more => Some (toks ++ more)
      | None => None
      end.

(** The states in which a value may start. *)
Definition value_expected (e : Parser.expect) : Prop :=
  e = Parser.EValue \/ e = Parser.EValueOrClose.

(** The states in which the name of a field may start. *)
Definition key_expected (e : Parser.expect) : Prop :=
  e = Parser.EKeyOrClose \/ e = Parser.EKey.

(** The tokens of the value are read as the value. *)
Definition parses (v : json) : Prop :=
  forall e stack rest,
    value_expected e ->
    Parser.parse_tokens (e, stack) (tokens v ++ rest)
    = match Parser.deliver v stack with
      | Some st => Parser.parse_tokens st rest
      | None => None
      end.

(** ** What a call of [create] gets to *)

(** The value that [create] parses out of its body, when it gets that
    far: nothing for a falsy body and for a text that is not JSON. *)
Definition parsed_body (body : option jsstring) : option json :=
  if falsy body then None else JSON_parse (default [] body).

(** The variable [TABLE_NAME] names the table [table], and the store
    answers the next command with no fault of its own. *)
Definition store_ready (w : World) (name : jsstring) (table : Table) : Prop :=
  env w !! str "TABLE_NAME" = Some name
  /\ tables w !! name = Some table
  /\ faults w (length (sent w)) = None.

(** The record under the key [k] of the table [name]. *)
Definition record_at (db : gmap jsstring Table) (name k : jsstring)
  : option Item :=
  match db !! name with
  | Some table => table !! k
  | None => None
  end.

(** The identifier that the next call of [randomUUID] returns. *)
Definition next_uuid (w : World) : jsstring := uuids w (drawn w).

(** A body whose [pk] is a number. *)
Definition number_pk_text : jsstring := str "{" ++ dq "pk" ++ str ":5}".

(** The stored world of the example, with one record in its table. *)
Definition stocked_world : World :=
  set_tables {[ str "RestAPI-DbTable" := {[ str "POST#mine" := pk_record ]} ]}
    demo_world.

(** A world in which [randomUUID] returns the same identifier every time. *)
Definition stuck_world : World :=
  {| env := env demo_world; tables := tables demo_world; sent := [];
     uuids := fun _ => str "3f2b8c1e-5d4a-4e6f-9a7b-000000000000";
     drawn := 0; faults := fun _ => None |}.

(** A function of a template is wired to a table: it is declared, its
    environment is the one variable [TABLE_NAME] with the name of a
    declared table whose partition key is the string attribute [pk], and
    it is granted to read and write that table. *)
Definition wired (t : Cdk.Template) (fn : jsstring) : Prop :=
  exists props table tprops,
    (fn, props) ∈ Cdk.functions t
    /\ Cdk.environment props = [(str "TABLE_NAME", Cdk.TableNameOf table)]
    /\ (table, tprops) ∈ Cdk.dynamo_tables t
    /\ Cdk.partitionKey_name tprops = partition_key
    /\ Cdk.partitionKey_type tprops = Cdk.STRING
    /\ (table, fn) ∈ Cdk.read_write_grants t.

(** The methods of a template that ask for no API key: resource and HTTP
    method. *)
Definition open_methods (t : Cdk.Template) : list (Cdk.Resource * jsstring) :=
  omap (fun m => if Cdk.apiKeyRequired m then None
                 else Some (Cdk.resource m, Cdk.httpMethod m))
    (Cdk.methods t).

(** * Properties *)

(** ** The run time *)

Lemma JSON_parse_empty : JSON_parse [] = None.
Proof. reflexivity. Qed.

Lemma stringify_missing_body :
  JSON_stringify (message "Missing body") = message_text "Missing body".
Proof. reflexivity. Qed.

Lemma stringify_post_created :
  JSON_stringify (message "Post created") = message_text "Post created".
Proof. reflexivity. Qed.

(** ** The lexer on the output of [JSON.stringify] *)

Module LexerFacts.
Import Lexer.

Lemma lex_silent (st st' : lexst) (c : N) (input : jsstring) :
  lex_step st c = Some (st', []) -> lex st (c :: input) = lex st' input.
Proof.
  intros H. simpl. rewrite H. destruct (lex st' input); reflexivity.
Qed.

Lemma hex_value_digit (d : N) : d < 16 -> hex_value (hex_digit d) = Some d.
Proof.
  intros H.
  assert (Hd : d = 0 \/ d = 1 \/ d = 2 \/ d = 3 \/ d = 4 \/ d = 5 \/ d = 6
               \/ d = 7 \/ d = 8 \/ d = 9 \/ d = 10 \/ d = 11 \/ d = 12
               \/ d = 13 \/ d = 14 \/ d = 15) by lia.
  repeat (destruct Hd as [->|Hd]; [reflexivity|]). subst d. reflexivity.
Qed.

Lemma lex_unicode_escape (c : N) (acc input : jsstring) :
  c < 65536 ->
  lex (LStr acc) (unicode_escape c ++ input) = lex (LStr (c :: acc)) input.
Proof.
  intros Hc. unfold unicode_escape.
  change ([92; 117; hex_digit (c / 4096 mod 16); hex_digit (c / 256 mod 16);
           hex_digit (c / 16 mod 16); hex_digit (c mod 16)] ++ input)
    with (92 :: 117 :: hex_digit (c / 4096 mod 16) :: hex_digit (c / 256 mod 16)
          :: hex_digit (c / 16 mod 16) :: hex_digit (c mod 16) :: input).
  rewrite (lex_silent (LStr acc) (LEsc acc)) by reflexivity.
  rewrite (lex_silent (LEsc acc) (LHex acc 3 0)) by reflexivity.
  rewrite (lex_silent (LHex acc 3 0) (LHex acc 2 (c / 4096 mod 16))).
  2:{ simpl. rewrite hex_value_digit by (apply N.mod_lt; lia). reflexivity. }
  rewrite (lex_silent _ (LHex acc 1 (16 * (c / 4096 mod 16) + c / 256 mod 16))).
  2:{ simpl. rewrite hex_value_digit by (apply N.mod_lt; lia). reflexivity. }
  rewrite (lex_silent _ (LHex acc 0 (16 * (16 * (c / 4096 mod 16) + c / 256 mod 16)
                                     + c / 16 mod 16))).
  2:{ simpl. rewrite hex_value_digit by (apply N.mod_lt; lia). reflexivity. }
  rewrite (lex_silent _ (LStr (c :: acc))); [reflexivity|].
  simpl. rewrite hex_value_digit by (apply N.mod_lt; lia).
  do 3 f_equal.
  assert (H4096 : c / 4096 mod 16 = c / 4096).
  { apply N.mod_small. apply N.Div0.div_lt_upper_bound. lia. }
  rewrite H4096.
  pose proof (N.div_mod c 16 ltac:(lia)) as E1.
  pose proof (N.div_mod (c / 16) 16 ltac:(lia)) as E2.
  pose proof (N.div_mod (c / 256) 16 ltac:(lia)) as E3.
  assert (D2 : c / 16 / 16 = c / 256) by apply N.Div0.div_div.
  assert (D3 : c / 256 / 16 = c / 4096) by apply N.Div0.div_div.
  rewrite D2 in E2. rewrite D3 in E3. f_equal. lia.
Qed.

(** A code unit that stands for itself between the quotes. *)
Lemma lex_plain (c : N) (acc input : jsstring) :
  (c =? dquote) = false -> (c =? 92) = false -> (c <? 32) = false ->
  lex (LStr acc) (c :: input) = lex (LStr (c :: acc)) input.
Proof.
  intros H1 H2 H3. apply lex_silent. simpl. rewrite H1, H2, H3. reflexivity.
Qed.

Lemma lex_short_escape (c u : N) (acc input : jsstring) :
  (c =? 117) = false -> escape_unit c = Some u ->
  lex (LStr acc) (92 :: c :: input) = lex (LStr (u :: acc)) input.
Proof.
  intros H1 H2.
  rewrite (lex_silent (LStr acc) (LEsc acc)) by reflexivity.
  apply lex_silent. simpl. rewrite H1, H2. reflexivity.
Qed.


Ltac short_escape c u IH :=
  rewrite <- app_assoc; cbn [app];
  rewrite (lex_short_escape c u) by reflexivity; apply IH.

Lemma lex_quote_cons (c : N) (s : jsstring) :
  (forall acc input,
     lex (LStr acc) (quote_units s ++ input) = lex (LStr (rev s ++ acc)) input) ->
  (forall d s', s = d :: s' ->
     forall acc input,
       lex (LStr acc) (quote_units s' ++ input) = lex (LStr (rev s' ++ acc)) input) ->
  forall acc input,
    lex (LStr acc) (quote_units (c :: s) ++ input)
    = lex (LStr (rev (c :: s) ++ acc)) input.
Proof.
  intros IH IH' acc input.
  replace (rev (c :: s) ++ acc) with (rev s ++ c :: acc)
    by (simpl; rewrite <- app_assoc; reflexivity).
  cbn [quote_units].
  destruct (c =? 8) eqn:E8.
  { apply N.eqb_eq in E8. subst c. short_escape 98 8 IH. }
  destruct (c =? 9) eqn:E9.
  { apply N.eqb_eq in E9. subst c. short_escape 116 9 IH. }
  destruct (c =? 10) eqn:E10.
  { apply N.eqb_eq in E10. subst c. short_escape 110 10 IH. }
  destruct (c =? 12) eqn:E12.
  { apply N.eqb_eq in E12. subst c. short_escape 102 12 IH. }
  destruct (c =? 13) eqn:E13.
  { apply N.eqb_eq in E13. subst c. short_escape 114 13 IH. }
  destruct (c =? dquote) eqn:Eq.
  { apply N.eqb_eq in Eq. subst c. short_escape dquote dquote IH. }
  destruct (c =? 92) eqn:Eb.
  { apply N.eqb_eq in Eb. subst c. short_escape 92 92 IH. }
  destruct (c <? 32) eqn:Ec.
  { apply N.ltb_lt in Ec. rewrite <- app_assoc.
    rewrite lex_unicode_escape by lia. apply IH. }
  destruct (is_high_surrogate c) eqn:Eh.
  { assert (Hc : c < 65536).
    { unfold is_high_surrogate in Eh. apply andb_true_iff in Eh as [_ Eh].
      apply N.leb_le in Eh. lia. }
    destruct s as [|d s'].
    - rewrite lex_unicode_escape by exact Hc. reflexivity.
    - destruct (is_low_surrogate d) eqn:El.
      + cbn [app]. rewrite lex_plain by assumption.
        unfold is_low_surrogate in El. apply andb_true_iff in El as [El _].
        apply N.leb_le in El.
        rewrite lex_plain.
        * rewrite (IH' d s' eq_refl). simpl. rewrite <- !app_assoc. reflexivity.
        * apply N.eqb_neq. unfold dquote. lia.
        * apply N.eqb_neq. lia.
        * apply N.ltb_ge. lia.
      + rewrite <- app_assoc. rewrite lex_unicode_escape by exact Hc. apply IH. }
  destruct (is_low_surrogate c) eqn:El.
  { assert (Hc : c < 65536).
    { unfold is_low_surrogate in El. apply andb_true_iff in El as [_ El].
      apply N.leb_le in El. lia. }
    rewrite <- app_assoc. rewrite lex_unicode_escape by exact Hc. apply IH. }
  cbn [app]. rewrite lex_plain by assumption. apply IH.
Qed.

Lemma lex_quote_units (s : jsstring) (acc input : jsstring) :
  lex (LStr acc) (quote_units s ++ input) = lex (LStr (rev s ++ acc)) input.
Proof.
  revert acc input.
  assert (H : (forall acc input,
                 lex (LStr acc) (quote_units s ++ input)
                 = lex (LStr (rev s ++ acc)) input)
              /\ (forall d s', s = d :: s' ->
                    forall acc input,
                      lex (LStr acc) (quote_units s' ++ input)
                      = lex (LStr (rev s' ++ acc)) input)).
  { induction s as [|c s [IH1 IH2]].
    - split; [reflexivity|]. intros d s' [=].
    - split.
      + apply lex_quote_cons; assumption.
      + intros d s' [= <- <-]. exact IH1. }
  exact (proj1 H).
Qed.

(** The lexer reads a quoted string back as one token. *)
Lemma lex_quote (s input : jsstring) :
  lex LIdle (quote s ++ input)
  = match lex LIdle input with
    | Some more => Some (TString s :: more)
    | None => None
    end.
Proof.
  unfold quote. rewrite <- !app_assoc. cbn [app].
  rewrite (lex_silent LIdle (LStr [])) by reflexivity.
  rewrite lex_quote_units, app_nil_r.
  simpl. rewrite rev_involutive. reflexivity.
Qed.

(** A punctuation mark is a token of its own. *)
Lemma lex_mark (c : N) (t : token) (input : jsstring) :
  idle_step c = Some (LIdle, [t]) ->
  lex LIdle (c :: input)
  = match lex LIdle input with
    | Some more => Some (t :: more)
    | None => None
    end.
Proof. intros H. simpl. rewrite H. reflexivity. Qed.

End LexerFacts.

(** ** [JSON.parse] after [JSON.stringify] *)

Module RoundTrip.
Import Lexer LexerFacts.

Lemma lex_word_end (tok : token) (input : jsstring) :
  lex (LWord [] tok) input
  = match lex LIdle input with
    | Some more => Some (tok :: more)
    | None => None
    end.
Proof.
  destruct input as [|c input]; [reflexivity|]. simpl.
  destruct (idle_step c) as [[st toks]|]; [|reflexivity].
  destruct (lex st input); reflexivity.
Qed.

Lemma lexes_null : lexes (str "null") [TNull].
Proof.
  intros input _. change (str "null" ++ input) with (110 :: 117 :: 108 :: 108 :: input).
  rewrite (lex_silent LIdle (LWord (str "ull") TNull)) by reflexivity.
  rewrite (lex_silent _ (LWord (str "ll") TNull)) by reflexivity.
  rewrite (lex_silent _ (LWord (str "l") TNull)) by reflexivity.
  rewrite (lex_silent _ (LWord [] TNull)) by reflexivity.
  apply lex_word_end.
Qed.

Lemma lexes_true : lexes (str "true") [TTrue].
Proof.
  intros input _. change (str "true" ++ input) with (116 :: 114 :: 117 :: 101 :: input).
  rewrite (lex_silent LIdle (LWord (str "rue") TTrue)) by reflexivity.
  rewrite (lex_silent _ (LWord (str "ue") TTrue)) by reflexivity.
  rewrite (lex_silent _ (LWord (str "e") TTrue)) by reflexivity.
  rewrite (lex_silent _ (LWord [] TTrue)) by reflexivity.
  apply lex_word_end.
Qed.

Lemma lexes_false : lexes (str "false") [TFalse].
Proof.
  intros input _.
  change (str "false" ++ input) with (102 :: 97 :: 108 :: 115 :: 101 :: input).
  rewrite (lex_silent LIdle (LWord (str "alse") TFalse)) by reflexivity.
  rewrite (lex_silent _ (LWord (str "lse") TFalse)) by reflexivity.
  rewrite (lex_silent _ (LWord (str "se") TFalse)) by reflexivity.
  rewrite (lex_silent _ (LWord (str "e") TFalse)) by reflexivity.
  rewrite (lex_silent _ (LWord [] TFalse)) by reflexivity.
  apply lex_word_end.
Qed.

Lemma lexes_quote (s : jsstring) : lexes (quote s) [TString s].
Proof. intros input _. apply lex_quote. Qed.

(** Parts between commas, up to the mark that closes them. *)
Lemma lex_commas (close : N) (tclose : token) (texts : list jsstring)
    (tokss : list (list token)) (input : jsstring) :
  idle_step close = Some (LIdle, [tclose]) ->
  delimited (close :: input) = true ->
  Forall2 lexes texts tokss ->
  lex LIdle (commas texts ++ close :: input)
  = match lex LIdle input with
    | Some more => Some (comma_tokens tokss ++ tclose :: more)
    | None => None
    end.
Proof.
  intros Hc Hd H. induction H as [|text toks texts tokss Hx H IH].
  - simpl commas. cbn [app]. rewrite (lex_mark close tclose) by exact Hc.
    reflexivity.
  - destruct H as [|text' toks' texts tokss Hy H].
    + simpl commas. simpl comma_tokens. rewrite (Hx _ Hd).
      rewrite (lex_mark close tclose) by exact Hc.
      destruct (lex LIdle input); [|reflexivity].
      rewrite <- ?app_assoc. reflexivity.
    + change (commas (text :: text' :: texts))
        with (text ++ [44] ++ commas (text' :: texts)).
      change (comma_tokens (toks :: toks' :: tokss))
        with (toks ++ [TComma] ++ comma_tokens (toks' :: tokss)).
      rewrite <- !app_assoc. cbn [app].
      rewrite (Hx (44 :: commas (text' :: texts) ++ close :: input) eq_refl).
      rewrite (lex_mark 44 TComma) by reflexivity.
      rewrite IH.
      destruct (lex LIdle input); [|reflexivity].
      rewrite <- ?app_assoc. reflexivity.
Qed.

Lemma lexes_value (v : json) :
  number_free v = true -> lexes (JSON_stringify v) (tokens v).
Proof.
  induction v as [|b|lit|s|items IH|props IH] using json_induction; intros Hw.
  - apply lexes_null.
  - destruct b; [apply lexes_true | apply lexes_false].
  - discriminate Hw.
  - apply lexes_quote.
  - intros input Hd. cbn [JSON_stringify tokens].
    rewrite <- !app_assoc. cbn [app].
    rewrite (lex_mark 91 TLBrack) by reflexivity.
    rewrite (lex_commas 93 TRBrack _ (List.map tokens items)); try reflexivity.
    + destruct (lex LIdle input); [|reflexivity].
      rewrite <- ?app_assoc. reflexivity.
    + simpl in Hw. induction IH as [|x items Hx IH IH']; [constructor|].
      simpl in Hw. apply andb_true_iff in Hw as [Hw1 Hw2].
      constructor; [apply Hx; exact Hw1 | apply IH'; exact Hw2].
  - intros input Hd. cbn [JSON_stringify tokens].
    rewrite <- !app_assoc. cbn [app].
    rewrite (lex_mark 123 TLBrace) by reflexivity.
    rewrite (lex_commas 125 TRBrace _
               (List.map (fun kv => match kv with
                                    | (k, x) => TString k :: TColon :: tokens x
                                    end) props)); try reflexivity.
    + destruct (lex LIdle input); [|reflexivity].
      rewrite <- ?app_assoc. reflexivity.
    + simpl in Hw. induction IH as [|[k x] props Hx IH IH']; [constructor|].
      simpl in Hw. apply andb_true_iff in Hw as [Hw1 Hw2].
      constructor; [|apply IH'; exact Hw2].
      intros rest Hr. rewrite <- !app_assoc. cbn [app].
      rewrite lex_quote. rewrite (lex_mark 58 TColon) by reflexivity.
      simpl in Hx. rewrite (Hx Hw1 rest Hr). destruct (lex LIdle rest); reflexivity.
Qed.

Import Parser.

Lemma parses_scalar (v : json) (tok : token) :
  tokens v = [tok] ->
  (forall stack, start_value tok stack = deliver v stack) ->
  tok <> TRBrack ->
  parses v.
Proof.
  intros Ht Hs Hne e stack rest [-> | ->]; rewrite Ht; simpl; rewrite <- Hs.
  - reflexivity.
  - destruct tok; try reflexivity. contradiction.
Qed.

Lemma parse_items (stack : list frame) (rest : list token) (items : list json) :
  Forall parses items ->
  items <> [] ->
  forall acc e,
    value_expected e ->
    parse_tokens (e, FArr acc :: stack)
      (comma_tokens (List.map tokens items) ++ TRBrack :: rest)
    = match deliver (JArr (rev acc ++ items)) stack with
      | Some st => parse_tokens st rest
      | None => None
      end.
Proof.
  intros H. induction H as [|x items Hx H IH]; [congruence|].
  intros _ acc e He. destruct items as [|y items].
  - simpl comma_tokens. rewrite (Hx e _ _ He). reflexivity.
  - change (comma_tokens (List.map tokens (x :: y :: items)))
      with (tokens x ++ [TComma] ++ comma_tokens (List.map tokens (y :: items))).
    rewrite <- !app_assoc. rewrite (Hx e _ _ He). cbn [deliver app].
    change (parse_tokens (ESep, FArr (x :: acc) :: stack)
              (TComma :: comma_tokens (List.map tokens (y :: items))
               ++ TRBrack :: rest))
      with (parse_tokens (EValue, FArr (x :: acc) :: stack)
              (comma_tokens (List.map tokens (y :: items)) ++ TRBrack :: rest)).
    rewrite (IH ltac:(discriminate) (x :: acc) EValue (or_introl eq_refl)).
    simpl rev. rewrite <- app_assoc. reflexivity.
Qed.

Lemma parse_fields (stack : list frame) (rest : list token)
    (props : list (jsstring * json)) :
  Forall (fun kv => parses kv.2) props ->
  props <> [] ->
  forall acc e,
    key_expected e ->
    parse_tokens (e, FObj acc :: stack)
      (comma_tokens (List.map (fun kv => match kv with
                                         | (k, x) => TString k :: TColon :: tokens x
                                         end) props)
       ++ TRBrace :: rest)
    = match deliver (JObj (rev acc ++ props)) stack with
      | Some st => parse_tokens st rest
      | None => None
      end.
Proof.
  intros H. induction H as [|[k x] props Hx H IH]; [congruence|].
  intros _ acc e He. simpl in Hx.
  assert (Hstart : forall more,
             parse_tokens (e, FObj acc :: stack)
               ((TString k :: TColon :: tokens x) ++ more)
             = parse_tokens (ESep, FObj ((k, x) :: acc) :: stack) more).
  { intros more.
    change ((TString k :: TColon :: tokens x) ++ more)
      with (TString k :: TColon :: tokens x ++ more).
    transitivity (parse_tokens (EValue, FField acc k :: stack) (tokens x ++ more)).
    - destruct He as [-> | ->]; reflexivity.
    - rewrite (Hx EValue _ _ (or_introl eq_refl)). reflexivity. }
  destruct props as [|kv props].
  - simpl comma_tokens. rewrite Hstart. reflexivity.
  - change (comma_tokens
              (List.map (fun kv => match kv with
                                   | (k, x) => TString k :: TColon :: tokens x
                                   end) ((k, x) :: kv :: props)))
      with ((TString k :: TColon :: tokens x) ++ [TComma]
            ++ comma_tokens
                 (List.map (fun kv => match kv with
                                      | (k, x) => TString k :: TColon :: tokens x
                                      end) (kv :: props))).
    rewrite <- !app_assoc. rewrite Hstart. cbn [app].
    change (parse_tokens (ESep, FObj ((k, x) :: acc) :: stack)
              (TComma :: ?l))
      with (parse_tokens (EKey, FObj ((k, x) :: acc) :: stack) l).
    rewrite (IH ltac:(discriminate) ((k, x) :: acc) EKey (or_intror eq_refl)).
    simpl rev. rewrite <- app_assoc. reflexivity.
Qed.

Lemma parses_value (v : json) : parses v.
Proof.
  induction v as [|b|lit|s|items IH|props IH] using json_induction.
  - apply (parses_scalar _ TNull); [reflexivity | reflexivity | discriminate].
  - destruct b.
    + apply (parses_scalar _ TTrue); [reflexivity | reflexivity | discriminate].
    + apply (parses_scalar _ TFalse); [reflexivity | reflexivity | discriminate].
  - apply (parses_scalar _ (TNumber lit)); [reflexivity | reflexivity | discriminate].
  - apply (parses_scalar _ (TString s)); [reflexivity | reflexivity | discriminate].
  - intros e stack rest He. cbn [tokens]. rewrite <- !app_assoc. cbn [app].
    transitivity (parse_tokens (EValueOrClose, FArr [] :: stack)
                    (comma_tokens (List.map tokens items) ++ TRBrack :: rest)).
    { destruct He as [-> | ->]; reflexivity. }
    destruct items as [|x items]; [reflexivity|].
    apply (parse_items stack rest (x :: items) IH ltac:(discriminate) []
             EValueOrClose (or_intror eq_refl)).
  - intros e stack rest He. cbn [tokens]. rewrite <- !app_assoc. cbn [app].
    transitivity (parse_tokens (EKeyOrClose, FObj [] :: stack)
                    (comma_tokens
                       (List.map (fun kv => match kv with
                                            | (k, x) => TString k :: TColon :: tokens x
                                            end) props)
                     ++ TRBrace :: rest)).
    { destruct He as [-> | ->]; reflexivity. }
    destruct props as [|kv props]; [reflexivity|].
    apply (parse_fields stack rest (kv :: props) IH ltac:(discriminate) []
             EKeyOrClose (or_introl eq_refl)).
Qed.

End RoundTrip.

(** [JSON.parse] reads back what [JSON.stringify] writes for a value
    without numbers. *)
Theorem JSON_parse_stringify (v : json) :
  number_free v = true -> JSON_parse (JSON_stringify v) = Some v.
Proof.
  intros Hw. unfold JSON_parse, Lexer.tokenize.
  pose proof (RoundTrip.lexes_value v Hw [] eq_refl) as Hl.
  rewrite app_nil_r in Hl. rewrite Hl. simpl.
  pose proof (RoundTrip.parses_value v Parser.EValue [] [] (or_introl eq_refl)) as Hq.
  rewrite Hq. reflexivity.
Qed.

(** The text that [JSON.stringify] gives for a payload parses back to the
    payload. *)
Corollary JSON_parse_stringify_post (P : IPost) :
  JSON_parse (JSON_stringify (post_json P)) = Some (post_json P).
Proof. apply JSON_parse_stringify. reflexivity. Qed.

Lemma falsy_spec (body : option jsstring) :
  falsy body = true <-> body = None \/ body = Some [].
Proof.
  destruct body as [[|c text]|]; simpl; split; intros H; auto;
    try discriminate; destruct H; discriminate.
Qed.

Lemma truthy_text (body : option jsstring) :
  falsy body = false -> exists text, body = Some text /\ text <> [].
Proof.
  destruct body as [[|c text]|]; simpl; intros H; try discriminate.
  exists (c :: text). split; [reflexivity | discriminate].
Qed.

(** A spread looks a name up in the value first, then in the target. *)
Lemma foldl_insert_lookup (props : list (jsstring * json)) (target : Item)
    (k : jsstring) :
  foldl (fun obj kv => <[kv.1 := kv.2]> obj) target props !! k
  = match assoc_last props k with
    | Some x => Some x
    | None => target !! k
    end.
Proof.
  revert target. induction props as [|[k' x] props IH]; intros target.
  - reflexivity.
  - simpl. rewrite IH. destruct (assoc_last props k) as [y|]; [reflexivity|].
    destruct (decide (k' = k)) as [->|Hne].
    + apply lookup_insert_eq.
    + apply lookup_insert_ne. exact Hne.
Qed.

Lemma spread_lookup (target : Item) (v : json) (k : jsstring) :
  spread target v !! k
  = match property v k with
    | Some x => Some x
    | None => target !! k
    end.
Proof. apply foldl_insert_lookup. Qed.

Lemma new_item_lookup (uuid : jsstring) (v : json) (k : jsstring) :
  new_item uuid v !! k
  = match property v k with
    | Some x => Some x
    | None => if decide (k = str "pk")
              then Some (JStr (POST_prefix ++ uuid)) else None
    end.
Proof.
  unfold new_item. rewrite spread_lookup.
  destruct (property v k); [reflexivity|].
  destruct (decide (k = str "pk")) as [->|Hne].
  - apply lookup_singleton_eq.
  - apply lookup_singleton_ne. congruence.
Qed.

(** The key of a record whose [pk] is a prefixed identifier. *)
Lemma key_of_post (item : Item) (id : jsstring) :
  item !! str "pk" = Some (JStr (POST_prefix ++ id)) ->
  key_of item = Some (POST_prefix ++ id).
Proof.
  intros H. unfold key_of. change partition_key with (str "pk"). rewrite H.
  reflexivity.
Qed.

(** ** The handler, case by case *)

Lemma send_put_sent (input : PutCommandInput) (w : World) :
  sent (send_put input w).2 = sent w ++ [PutCommand input].
Proof.
  unfold send_put. destruct (faults w (length (sent w))); [reflexivity|].
  destruct (put_item input (tables w)); reflexivity.
Qed.

Lemma send_put_env (input : PutCommandInput) (w : World) :
  env (send_put input w).2 = env w.
Proof.
  unfold send_put. destruct (faults w (length (sent w))); [reflexivity|].
  destruct (put_item input (tables w)); reflexivity.
Qed.

Lemma send_put_thrown (input : PutCommandInput) (w w' : World) (e : exn) :
  send_put input w = (Thrown e, w') -> tables w' = tables w.
Proof.
  unfold send_put. destruct (faults w (length (sent w))).
  - intros [= <- <-]. reflexivity.
  - destruct (put_item input (tables w)); intros [= <- <-] || intros [=].
    reflexivity.
Qed.

Lemma send_put_returned (input : PutCommandInput) (w w' : World) :
  send_put input w = (Returned tt, w') ->
  exists name table k,
    TableName input = Some name /\ tables w !! name = Some table /\
    key_of (Item_ input) = Some k /\
    tables w' = <[name := <[k := Item_ input]> table]> (tables w).
Proof.
  unfold send_put, put_item. destruct (faults w (length (sent w))); [intros [=]|].
  destruct (TableName input) as [name|]; [|intros [=]].
  destruct (tables w !! name) as [table|] eqn:Ht; [|intros [=]].
  destruct (key_of (Item_ input)) as [k|]; [|intros [=]].
  intros [= <-]. exists name, table, k. auto.
Qed.

(** [create] on a falsy body. *)
Lemma create_falsy (body : option jsstring) (w : World) :
  falsy body = true ->
  create body w = (Returned missing_body, set_drawn (S (drawn w)) w).
Proof.
  intros Hf. unfold create, bind, randomUUID. rewrite Hf. reflexivity.
Qed.

(** [create] on a text that does not parse. *)
Lemma create_unparsed (text : jsstring) (w : World) :
  text <> [] -> JSON_parse text = None ->
  create (Some text) w = (Thrown SyntaxError, set_drawn (S (drawn w)) w).
Proof.
  intros Hne Hp. unfold create, bind, randomUUID.
  destruct text as [|c text]; [congruence|].
  change (falsy (Some (c :: text))) with false. cbv iota.
  unfold JSON_parse_or_throw.
  change (default [] (Some (c :: text))) with (c :: text).
  rewrite Hp. reflexivity.
Qed.

(** [create] on a text that parses: the answer is that of the one send. *)
Lemma create_parsed (text : jsstring) (v : json) (w : World) :
  JSON_parse text = Some v ->
  create (Some text) w
  = match send_put (put_of w v) (set_drawn (S (drawn w)) w) with
    | (Returned _, w') => (Returned post_created, w')
    | (Thrown e, w') => (Thrown e, w')
    end.
Proof.
  intros Hp. unfold create, bind, randomUUID.
  destruct text as [|c text]; [discriminate|].
  change (falsy (Some (c :: text))) with false. cbv iota.
  unfold JSON_parse_or_throw.
  change (default [] (Some (c :: text))) with (c :: text).
  rewrite Hp.
  unfold ret at 1, process_env. cbv beta iota.
  change (env (set_drawn (S (drawn w)) w)) with (env w).
  fold (put_of w v).
  destruct (send_put (put_of w v) (set_drawn (S (drawn w)) w)) as [[[]|e] w'];
    reflexivity.
Qed.

Lemma send_put_set_env (input : PutCommandInput) (e : gmap jsstring jsstring)
    (w : World) :
  send_put input (set_env e w)
  = ((send_put input w).1, set_env e (send_put input w).2).
Proof.
  unfold send_put. simpl.
  destruct (faults w (length (sent w))); [reflexivity|].
  destruct (put_item input (tables w)); reflexivity.
Qed.

(** Of the environment, [create] reads the variable [TABLE_NAME] only. *)
Lemma create_reads_TABLE_NAME_only (body : option jsstring)
    (e : gmap jsstring jsstring) (w : World) :
  e !! str "TABLE_NAME" = env w !! str "TABLE_NAME" ->
  create body (set_env e w) = ((create body w).1, set_env e (create body w).2).
Proof.
  intros He. destruct (falsy body) eqn:Hf.
  - rewrite !create_falsy by exact Hf. reflexivity.
  - destruct (truthy_text body Hf) as (text & -> & Hne).
    destruct (JSON_parse text) as [v|] eqn:Hp.
    + rewrite !(create_parsed text v) by exact Hp.
      replace (put_of (set_env e w) v) with (put_of w v)
        by (unfold put_of; simpl; rewrite He; reflexivity).
      change (set_drawn (S (drawn (set_env e w))) (set_env e w))
        with (set_env e (set_drawn (S (drawn w)) w)).
      rewrite send_put_set_env.
      destruct (send_put (put_of w v) (set_drawn (S (drawn w)) w))
        as [[[]|x] w']; reflexivity.
    + rewrite !create_unparsed by assumption. reflexivity.
Qed.

(** ** The contract of [create] *)

(** C1. A call of [create] with an absent ([null]) body returns the status
    400 with the body [{message:"Missing body"}], whatever the world; it
    sends no command to the store, and the tables are as they were. *)
Theorem create_null_body (w : World) :
  exists w',
    create None w
    = (Returned {| statusCode := 400; body := message_text "Missing body" |}, w')
    /\ JSON_parse (message_text "Missing body") = Some (message "Missing body")
    /\ sent w' = sent w
    /\ tables w' = tables w.
Proof.
  exists (set_drawn (S (drawn w)) w). split; [|split; [|split]].
  - apply create_falsy. reflexivity.
  - reflexivity.
  - reflexivity.
  - reflexivity.
Qed.

(** C9. The empty string is treated as an absent body: [create] answers
    it as it answers [null], with the status 400 and the body
    [{message:"Missing body"}], and sends nothing to the store.  The guard
    rejects both falsy values of a [string | null], and no other string. *)
Theorem create_empty_body (w : World) :
  create (Some []) w = create None w
  /\ (exists w',
        create (Some []) w = (Returned missing_body, w')
        /\ sent w' = sent w /\ tables w' = tables w)
  /\ falsy None = true
  /\ falsy (Some []) = true
  /\ (forall c text, falsy (Some (c :: text)) = false).
Proof.
  split; [|split; [|split; [|split]]].
  - rewrite !create_falsy by reflexivity. reflexivity.
  - exists (set_drawn (S (drawn w)) w).
    rewrite create_falsy by reflexivity. auto.
  - reflexivity.
  - reflexivity.
  - reflexivity.
Qed.

(** C8. When the body is present and is not valid JSON, [create] rejects
    with the [SyntaxError] of [JSON.parse]: it returns no response, so no
    status 400, and it has sent nothing to the store. *)
Theorem create_invalid_json (text : jsstring) (w : World) :
  text <> [] ->
  JSON_parse text = None ->
  exists w',
    create (Some text) w = (Thrown SyntaxError, w')
    /\ sent w' = sent w
    /\ tables w' = tables w
    /\ (forall r w'', create (Some text) w <> (Returned r, w'')).
Proof.
  intros Hne Hp. exists (set_drawn (S (drawn w)) w).
  rewrite (create_unparsed text w Hne Hp).
  split; [reflexivity|]. split; [reflexivity|]. split; [reflexivity|].
  intros r w'' [=].
Qed.

Lemma create_invalid_json_witness :
  exists w',
    create (Some broken_text) demo_world = (Thrown SyntaxError, w')
    /\ sent w' = sent demo_world
    /\ tables w' = tables demo_world
    /\ (forall r w'', create (Some broken_text) demo_world <> (Returned r, w'')).
Proof.
  apply (create_invalid_json broken_text demo_world).
  - discriminate.
  - reflexivity.
Defined.

(** C4. When the body is present and parses and the write succeeds,
    [create] has sent one command, a put to the table that the variable
    [TABLE_NAME] names, which changes that table at one key, and it
    returns the status 200 with the body [{message:"Post created"}]; no
    other variable of the environment has a part in this. *)
Theorem create_success (text : jsstring) (v : json) (w w' : World) :
  JSON_parse text = Some v ->
  send_put (put_of w v) (set_drawn (S (drawn w)) w) = (Returned tt, w') ->
  create (Some text) w
  = (Returned {| statusCode := 200; body := message_text "Post created" |}, w')
  /\ sent w' = sent w ++ [PutCommand (put_of w v)]
  /\ TableName (put_of w v) = env w !! str "TABLE_NAME"
  /\ (exists name table k,
        env w !! str "TABLE_NAME" = Some name
        /\ tables w !! name = Some table
        /\ tables w' = <[name := <[k := Item_ (put_of w v)]> table]> (tables w))
  /\ (forall e,
        e !! str "TABLE_NAME" = env w !! str "TABLE_NAME" ->
        create (Some text) (set_env e w) = (Returned post_created, set_env e w')).
Proof.
  intros Hp Hs.
  assert (Hc : create (Some text) w = (Returned post_created, w')).
  { rewrite (create_parsed text v w Hp), Hs. reflexivity. }
  split; [exact Hc|]. split.
  { pose proof (send_put_sent (put_of w v) (set_drawn (S (drawn w)) w)) as H.
    rewrite Hs in H. exact H. }
  split; [reflexivity|]. split.
  { destruct (send_put_returned _ _ _ Hs) as (name & table & k & Hn & Ht & _ & Hw).
    exists name, table, k. auto. }
  intros e He. rewrite (create_reads_TABLE_NAME_only _ e w He), Hc. reflexivity.
Qed.

(** C6. When the write fails, the error of the send is the rejection of
    [create]: the handler does not catch it, and it has sent the command
    once, with no second attempt; the tables are as they were. *)
Theorem create_store_failure (text : jsstring) (v : json) (w w' : World)
    (e : exn) :
  JSON_parse text = Some v ->
  send_put (put_of w v) (set_drawn (S (drawn w)) w) = (Thrown e, w') ->
  create (Some text) w = (Thrown e, w')
  /\ (exists cause, e = StoreFailure cause)
  /\ sent w' = sent w ++ [PutCommand (put_of w v)]
  /\ tables w' = tables w.
Proof.
  intros Hp Hs. split.
  { rewrite (create_parsed text v w Hp), Hs. reflexivity. }
  split.
  { revert Hs. unfold send_put.
    destruct (faults _ _) as [c|]; [intros [= <- _]; eauto|].
    destruct (put_item _ _) as [c|]; intros [= <- _] || intros [=]; eauto. }
  split.
  { pose proof (send_put_sent (put_of w v) (set_drawn (S (drawn w)) w)) as H.
    rewrite Hs in H. exact H. }
  apply (send_put_thrown _ _ _ _ Hs).
Qed.

Lemma create_success_witness :
  create (Some demo_text) demo_world
  = (Returned {| statusCode := 200; body := message_text "Post created" |},
     after_send demo_world (post_json demo_post))
  /\ sent (after_send demo_world (post_json demo_post))
     = sent demo_world ++ [PutCommand (put_of demo_world (post_json demo_post))]
  /\ TableName (put_of demo_world (post_json demo_post))
     = env demo_world !! str "TABLE_NAME"
  /\ (exists name table k,
        env demo_world !! str "TABLE_NAME" = Some name
        /\ tables demo_world !! name = Some table
        /\ tables (after_send demo_world (post_json demo_post))
           = <[name := <[k := Item_ (put_of demo_world (post_json demo_post))]> table]>
               (tables demo_world))
  /\ (forall e,
        e !! str "TABLE_NAME" = env demo_world !! str "TABLE_NAME" ->
        create (Some demo_text) (set_env e demo_world)
        = (Returned post_created,
           set_env e (after_send demo_world (post_json demo_post)))).
Proof.
  apply (create_success demo_text (post_json demo_post) demo_world).
  - vm_compute. reflexivity.
  - vm_compute. reflexivity.
Defined.

Lemma create_store_failure_witness :
  create (Some demo_text) throttled_world
  = (Thrown (StoreFailure ProvisionedThroughputExceededException),
     after_send throttled_world (post_json demo_post))
  /\ (exists cause,
        StoreFailure ProvisionedThroughputExceededException = StoreFailure cause)
  /\ sent (after_send throttled_world (post_json demo_post))
     = sent throttled_world
       ++ [PutCommand (put_of throttled_world (post_json demo_post))]
  /\ tables (after_send throttled_world (post_json demo_post))
     = tables throttled_world.
Proof.
  apply (create_store_failure demo_text (post_json demo_post) throttled_world).
  - vm_compute. reflexivity.
  - vm_compute. reflexivity.
Defined.

(** C3, on the code.  On the body [pk_text], which is present and parses,
    [create] returns 200 and the record written has the [pk] of the body,
    not the prefix followed by the identifier drawn: the spread of the
    body comes after [pk] in the item. *)
Theorem create_record_key_from_body :
  JSON_parse pk_text = Some pk_json
  /\ create (Some pk_text) demo_world
     = (Returned post_created, after_send demo_world pk_json)
  /\ sent (after_send demo_world pk_json)
     = [PutCommand (put_of demo_world pk_json)]
  /\ Item_ (put_of demo_world pk_json) !! str "pk" = Some (JStr (str "POST#mine"))
  /\ Item_ (put_of demo_world pk_json) !! str "pk"
     <> Some (JStr (POST_prefix ++ uuids demo_world (drawn demo_world))).
Proof.
  split; [reflexivity|].
  split; [vm_compute; reflexivity|].
  split; [vm_compute; reflexivity|].
  split; [vm_compute; reflexivity|].
  vm_compute. discriminate.
Qed.

(** The record of a body without a property [pk].  When the body parses
    to a value that has no property [pk] of its own, the record that
    [create] hands to the store has the attribute [pk], the namespace
    prefix followed by the identifier drawn in this call, which is its
    key; every property of the parsed body is an attribute of the record
    with the same value, and the record has no further attribute.  When
    the write succeeds the table holds the record under that key. *)
Theorem create_record (text : jsstring) (v : json) (w : World) :
  JSON_parse text = Some v ->
  property v (str "pk") = None ->
  sent (create (Some text) w).2 = sent w ++ [PutCommand (put_of w v)]
  /\ Item_ (put_of w v) !! str "pk"
     = Some (JStr (POST_prefix ++ uuids w (drawn w)))
  /\ key_of (Item_ (put_of w v)) = Some (POST_prefix ++ uuids w (drawn w))
  /\ (forall k x, property v k = Some x -> Item_ (put_of w v) !! k = Some x)
  /\ (forall k, k <> str "pk" -> Item_ (put_of w v) !! k = property v k)
  /\ (forall r w',
        create (Some text) w = (Returned r, w') ->
        exists name table,
          env w !! str "TABLE_NAME" = Some name
          /\ tables w !! name = Some table
          /\ tables w'
             = <[name := <[POST_prefix ++ uuids w (drawn w) := Item_ (put_of w v)]> table]>
                 (tables w)).
Proof.
  intros Hp Hpk.
  assert (Hitem : Item_ (put_of w v) !! str "pk"
                  = Some (JStr (POST_prefix ++ uuids w (drawn w)))).
  { simpl. rewrite new_item_lookup, Hpk. reflexivity. }
  assert (Hkey : key_of (Item_ (put_of w v))
                 = Some (POST_prefix ++ uuids w (drawn w))).
  { apply key_of_post. exact Hitem. }
  split.
  { rewrite (create_parsed text v w Hp).
    pose proof (send_put_sent (put_of w v) (set_drawn (S (drawn w)) w)) as H.
    destruct (send_put (put_of w v) (set_drawn (S (drawn w)) w)) as [[[]|e] w'];
      exact H. }
  split; [exact Hitem|]. split; [exact Hkey|]. split.
  { intros k x Hk. simpl. rewrite new_item_lookup, Hk. reflexivity. }
  split.
  { intros k Hk. simpl. rewrite new_item_lookup.
    destruct (property v k); [reflexivity|].
    destruct (decide (k = str "pk")); [contradiction|reflexivity]. }
  intros r w'. rewrite (create_parsed text v w Hp).
  destruct (send_put (put_of w v) (set_drawn (S (drawn w)) w))
    as [[[]|e] w1] eqn:Hs; intros [= _ <-].
  destruct (send_put_returned _ _ _ Hs) as (name & table & k & Hn & Ht & Hk & Hw).
  rewrite Hkey in Hk.
  assert (Hk' : k = POST_prefix ++ uuids w (drawn w)) by congruence.
  subst k. exists name, table. auto.
Qed.

Lemma create_record_witness :
  sent (create (Some demo_text) demo_world).2
  = sent demo_world ++ [PutCommand (put_of demo_world (post_json demo_post))]
  /\ Item_ (put_of demo_world (post_json demo_post)) !! str "pk"
     = Some (JStr (POST_prefix ++ uuids demo_world (drawn demo_world)))
  /\ key_of (Item_ (put_of demo_world (post_json demo_post)))
     = Some (POST_prefix ++ uuids demo_world (drawn demo_world))
  /\ (forall k x,
        property (post_json demo_post) k = Some x ->
        Item_ (put_of demo_world (post_json demo_post)) !! k = Some x)
  /\ (forall k,
        k <> str "pk" ->
        Item_ (put_of demo_world (post_json demo_post)) !! k
        = property (post_json demo_post) k)
  /\ (forall r w',
        create (Some demo_text) demo_world = (Returned r, w') ->
        exists name table,
          env demo_world !! str "TABLE_NAME" = Some name
          /\ tables demo_world !! name = Some table
          /\ tables w'
             = <[name := <[POST_prefix ++ uuids demo_world (drawn demo_world)
                           := Item_ (put_of demo_world (post_json demo_post))]> table]>
                 (tables demo_world)).
Proof.
  apply (create_record demo_text (post_json demo_post) demo_world).
  - vm_compute. reflexivity.
  - vm_compute. reflexivity.
Defined.



(** ** Creating, then reading *)

Lemma post_fields_no_pk (P : IPost) : post_fields P !! str "pk" = None.
Proof.
  unfold post_fields.
  rewrite !lookup_insert_ne by discriminate.
  apply lookup_singleton_ne. discriminate.
Qed.

Lemma post_json_is_payload (P : IPost) : is_payload P (post_json P).
Proof.
  intros k. unfold property, post_fields. simpl.
  destruct (decide (str "title" = k)) as [<-|H1].
  { rewrite lookup_insert_eq. repeat (case_decide; [discriminate|]). reflexivity. }
  rewrite lookup_insert_ne by exact H1.
  destruct (decide (str "description" = k)) as [<-|H2].
  { rewrite lookup_insert_eq. repeat (case_decide; [discriminate|]). reflexivity. }
  rewrite lookup_insert_ne by exact H2.
  destruct (decide (str "author" = k)) as [<-|H3].
  { rewrite lookup_insert_eq. repeat (case_decide; [discriminate|]). reflexivity. }
  rewrite lookup_insert_ne by exact H3.
  destruct (decide (str "publicationDate" = k)) as [<-|H4].
  { rewrite lookup_singleton_eq. reflexivity. }
  rewrite lookup_singleton_ne by exact H4. reflexivity.
Qed.

(** The record of a payload: its fields and the key. *)
Lemma new_item_payload (P : IPost) (v : json) (uuid : jsstring) :
  is_payload P v ->
  new_item uuid v = <[str "pk" := JStr (POST_prefix ++ uuid)]> (post_fields P).
Proof.
  intros HP. apply map_eq. intros k.
  rewrite new_item_lookup, (HP k).
  destruct (decide (k = str "pk")) as [->|Hne].
  - rewrite post_fields_no_pk, lookup_insert_eq. reflexivity.
  - rewrite lookup_insert_ne by congruence.
    destruct (post_fields P !! k); reflexivity.
Qed.

(** C5. For a valid payload [P]: when [create], called with a body that
    parses to [P], has returned, [getOne] called with the identifier
    drawn by that [create] returns the status 200 and the record made of
    the four fields of [P] and of the attribute [pk], which holds the
    prefix followed by that identifier; the read is supposed to reach the
    store. *)
Theorem create_then_getOne (text : jsstring) (v : json) (P : IPost)
    (w w1 : World) (r : Response) :
  JSON_parse text = Some v ->
  is_payload P v ->
  create (Some text) w = (Returned r, w1) ->
  faults w1 (length (sent w1)) = None ->
  exists w2,
    getOne (uuids w (drawn w)) w1
    = (Returned
         (Post 200 (<[str "pk" := JStr (POST_prefix ++ uuids w (drawn w))]>
                      (post_fields P))),
       w2)
    /\ tables w2 = tables w1.
Proof.
  intros Hp HP Hc Hf.
  rewrite (create_parsed text v w Hp) in Hc.
  destruct (send_put (put_of w v) (set_drawn (S (drawn w)) w))
    as [[[]|e] w'] eqn:Hs; [|discriminate].
  injection Hc as _ <-.
  destruct (send_put_returned _ _ _ Hs) as (name & table & k & Hn & Ht & Hk & Hw).
  pose proof (send_put_env (put_of w v) (set_drawn (S (drawn w)) w)) as He.
  rewrite Hs in He.
  change (env w' = env w) in He.
  change (env w !! str "TABLE_NAME" = Some name) in Hn.
  change (Item_ (put_of w v)) with (new_item (uuids w (drawn w)) v) in Hk, Hw.
  change (tables (set_drawn (S (drawn w)) w)) with (tables w) in Ht, Hw.
  rewrite (new_item_payload P v _ HP) in Hk, Hw.
  rewrite (key_of_post _ (uuids w (drawn w))) in Hk
    by apply lookup_insert_eq.
  assert (Hk' : k = POST_prefix ++ uuids w (drawn w)) by congruence.
  subst k. clear Hk.
  unfold getOne, bind, process_env, send_get.
  rewrite He, Hn, Hf. unfold get_item. cbn [get_TableName Key].
  rewrite Hw, lookup_insert_eq.
  rewrite (key_of_post _ (uuids w (drawn w))) by apply lookup_singleton_eq.
  rewrite lookup_insert_eq.
  eexists. split; [reflexivity|]. exact Hw.
Qed.

Lemma create_then_getOne_witness :
  exists w2,
    getOne (uuids demo_world (drawn demo_world))
      (after_send demo_world (post_json demo_post))
    = (Returned
         (Post 200
            (<[str "pk" := JStr (POST_prefix ++ uuids demo_world (drawn demo_world))]>
               (post_fields demo_post))),
       w2)
    /\ tables w2 = tables (after_send demo_world (post_json demo_post)).
Proof.
  apply (create_then_getOne demo_text (post_json demo_post) demo_post
           demo_world (after_send demo_world (post_json demo_post)) post_created).
  - vm_compute. reflexivity.
  - apply post_json_is_payload.
  - vm_compute. reflexivity.
  - reflexivity.
Defined.

(** ** The key of a record and the caller *)

(** When a body has no property [pk], the keys of the records of two calls
    differ as soon as the identifiers drawn differ. *)
Lemma keys_differ (v1 v2 : json) (id1 id2 : jsstring) :
  property v1 (str "pk") = None ->
  property v2 (str "pk") = None ->
  id1 <> id2 ->
  key_of (new_item id1 v1) <> key_of (new_item id2 v2).
Proof.
  intros H1 H2 Hne.
  rewrite (key_of_post _ id1), (key_of_post _ id2)
    by (rewrite new_item_lookup, ?H1, ?H2; reflexivity).
  intros [= H]. apply Hne. exact H.
Qed.

(** A body with a property [pk] fixes the attribute [pk] of the record,
    whatever identifier is drawn. *)
Lemma key_from_body (v : json) (x : json) (id : jsstring) :
  property v (str "pk") = Some x ->
  new_item id v !! str "pk" = Some x.
Proof. intros H. rewrite new_item_lookup, H. reflexivity. Qed.

(** C2, on the code.  Two calls of [create] with the body [pk_text],
    which carries a property [pk], both return 200; the identifiers drawn
    in the two calls differ, yet both records have the key that the caller
    chose, and the table holds one record under it after the two calls:
    the second call has replaced the record of the first. *)
Theorem create_key_chosen_by_caller :
  exists w1 w2,
    create (Some pk_text) demo_world = (Returned post_created, w1)
    /\ create (Some pk_text) w1 = (Returned post_created, w2)
    /\ uuids demo_world (drawn demo_world) <> uuids w1 (drawn w1)
    /\ tables w1 !! str "RestAPI-DbTable"
       = Some {[ str "POST#mine" := pk_record ]}
    /\ tables w2 !! str "RestAPI-DbTable"
       = Some {[ str "POST#mine" := pk_record ]}.
Proof.
  exists (after_send demo_world pk_json),
         (after_send (after_send demo_world pk_json) pk_json).
  split; [vm_compute; reflexivity|].
  split; [vm_compute; reflexivity|].
  split; [vm_compute; discriminate|].
  split; vm_compute; reflexivity.
Qed.

(** A body with a property [id]: the record has the caller's [id], and
    the key is the one of the handler. *)
Example create_with_id_in_body :
  exists v,
    JSON_parse id_text = Some v
    /\ Item_ (put_of demo_world v) !! str "id" = Some (JStr (str "7"))
    /\ key_of (Item_ (put_of demo_world v))
       = Some (str "POST#3f2b8c1e-5d4a-4e6f-9a7b-000000000000").
Proof. eexists. split; [reflexivity|]. split; vm_compute; reflexivity. Qed.

(** ** The stack *)

(** C7. The methods of the API that reach a handler are [GET /posts],
    [POST /posts], [GET /posts/{id}] and [DELETE /posts/{id}], and each of
    them is declared with [apiKeyRequired: true]; the API reads the key
    from a header, and its usage plan accepts the key of the stack. *)
Theorem endpoints_require_api_key :
  Cdk.handler_endpoints Cdk.RestApiStack
  = [ (str "GET", [str "posts"], str "PostsLambda", true);
      (str "POST", [str "posts"], str "PostsLambda", true);
      (str "GET", [str "posts"; str "{id}"], str "PostLambda", true);
      (str "DELETE", [str "posts"; str "{id}"], str "PostLambda", true) ]
  /\ Forall (fun e => e.2 = true) (Cdk.handler_endpoints Cdk.RestApiStack)
  /\ Cdk.key_source Cdk.RestApiStack = Some Cdk.HEADER
  /\ Cdk.accepted_keys (str "RestAPI") Cdk.RestApiStack = [str "ApiKey"].
Proof.
  assert (H : Cdk.handler_endpoints Cdk.RestApiStack
              = [ (str "GET", [str "posts"], str "PostsLambda", true);
                  (str "POST", [str "posts"], str "PostsLambda", true);
                  (str "GET", [str "posts"; str "{id}"], str "PostLambda", true);
                  (str "DELETE", [str "posts"; str "{id}"], str "PostLambda", true) ])
    by (vm_compute; reflexivity).
  split; [exact H|]. split.
  { rewrite H. repeat constructor. }
  split; vm_compute; reflexivity.
Qed.

(** The table of the stack has the partition key that the model of the
    store uses, and both functions get the one variable [TABLE_NAME]. *)
Lemma stack_table_and_environment :
  List.map (fun t => (Cdk.partitionKey_name t.2, Cdk.partitionKey_type t.2))
    (Cdk.dynamo_tables Cdk.RestApiStack)
  = [(partition_key, Cdk.STRING)]
  /\ List.map (fun f => List.map fst (Cdk.environment f.2))
       (Cdk.functions Cdk.RestApiStack)
     = [[str "TABLE_NAME"]; [str "TABLE_NAME"]].
Proof. split; vm_compute; reflexivity. Qed.

(** * More on the handler *)

(** ** One run of [create], path by path *)

Lemma create_run (body : option jsstring) (w : World) :
  create body w
  = match parsed_body body with
    | Some v =>
        match send_put (put_of w v) (set_drawn (S (drawn w)) w) with
        | (Returned _, w') => (Returned post_created, w')
        | (Thrown e, w') => (Thrown e, w')
        end
    | None =>
        (if falsy body then Returned missing_body else Thrown SyntaxError,
         set_drawn (S (drawn w)) w)
    end.
Proof.
  unfold parsed_body. destruct (falsy body) eqn:Hf.
  - apply create_falsy. exact Hf.
  - destruct (truthy_text body Hf) as (text & -> & Hne).
    change (default [] (Some text)) with text.
    destruct (JSON_parse text) as [v|] eqn:Hp.
    + apply create_parsed. exact Hp.
    + apply create_unparsed; assumption.
Qed.

Lemma send_put_drawn (input : PutCommandInput) (w : World) :
  drawn (send_put input w).2 = drawn w.
Proof.
  unfold send_put. destruct (faults w (length (sent w))); [reflexivity|].
  destruct (put_item input (tables w)); reflexivity.
Qed.

(** The send, from the state of the store. *)
Lemma send_put_ready (input : PutCommandInput) (w : World)
    (name k : jsstring) (table : Table) :
  TableName input = Some name ->
  tables w !! name = Some table ->
  faults w (length (sent w)) = None ->
  key_of (Item_ input) = Some k ->
  send_put input w
  = (Returned tt,
     set_tables (<[name := <[k := Item_ input]> table]> (tables w))
       (set_sent (sent w ++ [PutCommand input]) w)).
Proof.
  intros Hn Ht Hf Hk. unfold send_put, put_item. rewrite Hf, Hn, Ht, Hk.
  reflexivity.
Qed.

Lemma send_put_returned_iff (input : PutCommandInput) (w : World) :
  (exists w', send_put input w = (Returned tt, w'))
  <-> (exists name table k,
         TableName input = Some name /\ tables w !! name = Some table
         /\ key_of (Item_ input) = Some k
         /\ faults w (length (sent w)) = None).
Proof.
  split.
  - intros [w' H].
    destruct (send_put_returned _ _ _ H) as (name & table & k & Hn & Ht & Hk & _).
    exists name, table, k. repeat split; try assumption.
    revert H. unfold send_put. destruct (faults w (length (sent w))); [intros [=]|].
    reflexivity.
  - intros (name & table & k & Hn & Ht & Hk & Hf).
    eexists. apply (send_put_ready input w name k table); assumption.
Qed.

(** X1. Every call of [create] draws one identifier, also a call that is
    answered with 400 or that fails, and no call changes the environment. *)
Theorem create_draws_one_identifier (body : option jsstring) (w : World) :
  drawn (create body w).2 = S (drawn w)
  /\ env (create body w).2 = env w
  /\ next_uuid (create body w).2 = uuids w (S (drawn w)).
Proof.
  assert (H : drawn (create body w).2 = S (drawn w)
              /\ env (create body w).2 = env w
              /\ uuids (create body w).2 = uuids w).
  { rewrite create_run. destruct (parsed_body body) as [v|]; [|auto].
    pose proof (send_put_drawn (put_of w v) (set_drawn (S (drawn w)) w)) as Hd.
    pose proof (send_put_env (put_of w v) (set_drawn (S (drawn w)) w)) as He.
    assert (Hu : uuids (send_put (put_of w v) (set_drawn (S (drawn w)) w)).2
                 = uuids w).
    { unfold send_put. destruct (faults _ _); [reflexivity|].
      destruct (put_item _ _); reflexivity. }
    destruct (send_put (put_of w v) (set_drawn (S (drawn w)) w)) as [[[]|e] w'];
      auto. }
  destruct H as (Hd & He & Hu). split; [exact Hd|]. split; [exact He|].
  unfold next_uuid. rewrite Hd, Hu. reflexivity.
Qed.

(** X2. A call of [create] sends one put when its body is truthy and
    parses, and nothing otherwise: never two commands, never a read. *)
Theorem create_sends_at_most_one_put (body : option jsstring) (w : World) :
  sent (create body w).2
  = sent w ++ match parsed_body body with
              | Some v => [PutCommand (put_of w v)]
              | None => []
              end.
Proof.
  rewrite create_run. destruct (parsed_body body) as [v|].
  - pose proof (send_put_sent (put_of w v) (set_drawn (S (drawn w)) w)) as H.
    destruct (send_put (put_of w v) (set_drawn (S (drawn w)) w)) as [[[]|e] w'];
      exact H.
  - simpl. rewrite app_nil_r. reflexivity.
Qed.

(** X3. A 200 means that the record is stored: when [create] returns
    the response 200, the body was truthy and had parsed, the variable
    [TABLE_NAME] names a table of the store, the attribute [pk] of the
    record is a string that is not empty, the send met no fault, and the
    table now holds the record under that key. *)
Theorem create_200_means_stored (request : option jsstring) (w w' : World) :
  create request w = (Returned post_created, w') ->
  exists v name table k,
    parsed_body request = Some v
    /\ env w !! str "TABLE_NAME" = Some name
    /\ tables w !! name = Some table
    /\ key_of (new_item (next_uuid w) v) = Some k
    /\ faults w (length (sent w)) = None
    /\ record_at (tables w') name k = Some (new_item (next_uuid w) v).
Proof.
  rewrite create_run. destruct (parsed_body request) as [v|].
  - destruct (send_put (put_of w v) (set_drawn (S (drawn w)) w))
      as [[[]|e] w1] eqn:Hs; [|discriminate].
    intros [= <-].
    destruct (proj1 (send_put_returned_iff _ _) (ex_intro _ w1 Hs))
      as (name & table & k & Hn & Ht & Hk & Hf).
    exists v, name, table, k. repeat split; try assumption.
    rewrite (send_put_ready _ _ name k table Hn Ht Hf Hk) in Hs.
    injection Hs as <-. unfold record_at. simpl.
    rewrite !lookup_insert_eq. reflexivity.
  - destruct (falsy request); discriminate.
Qed.

Lemma create_200_means_stored_witness :
  exists v name table k,
    parsed_body (Some demo_text) = Some v
    /\ env demo_world !! str "TABLE_NAME" = Some name
    /\ tables demo_world !! name = Some table
    /\ key_of (new_item (next_uuid demo_world) v) = Some k
    /\ faults demo_world (length (sent demo_world)) = None
    /\ record_at (tables (after_send demo_world (post_json demo_post))) name k
       = Some (new_item (next_uuid demo_world) v).
Proof.
  apply (create_200_means_stored (Some demo_text) demo_world
           (after_send demo_world (post_json demo_post))).
  vm_compute. reflexivity.
Defined.

(** What a returning call on a parsed body has done. *)
Lemma create_returned_parsed (request : option jsstring) (v : json)
    (w w' : World) (r : Response) :
  parsed_body request = Some v ->
  create request w = (Returned r, w') ->
  r = post_created
  /\ exists name table k,
       env w !! str "TABLE_NAME" = Some name
       /\ tables w !! name = Some table
       /\ key_of (new_item (next_uuid w) v) = Some k
       /\ faults w (length (sent w)) = None
       /\ w' = set_tables
                 (<[name := <[k := new_item (next_uuid w) v]> table]> (tables w))
                 (set_sent (sent w ++ [PutCommand (put_of w v)])
                    (set_drawn (S (drawn w)) w)).
Proof.
  intros Hp. rewrite create_run, Hp.
  destruct (send_put (put_of w v) (set_drawn (S (drawn w)) w))
    as [[[]|e] w1] eqn:Hs; [|discriminate].
  intros [= <- <-]. split; [reflexivity|].
  destruct (proj1 (send_put_returned_iff _ _) (ex_intro _ w1 Hs))
    as (name & table & k & Hn & Ht & Hk & Hf).
  exists name, table, k. repeat split; try assumption.
  rewrite (send_put_ready _ _ name k table Hn Ht Hf Hk) in Hs.
  injection Hs as <-. reflexivity.
Qed.

(** A call on a parsed body, from the state of the store. *)
Lemma create_ready (request : option jsstring) (v : json) (w : World)
    (name k : jsstring) (table : Table) :
  parsed_body request = Some v ->
  store_ready w name table ->
  key_of (new_item (next_uuid w) v) = Some k ->
  create request w
  = (Returned post_created,
     set_tables (<[name := <[k := new_item (next_uuid w) v]> table]> (tables w))
       (set_sent (sent w ++ [PutCommand (put_of w v)])
          (set_drawn (S (drawn w)) w))).
Proof.
  intros Hp (Hn & Ht & Hf) Hk. rewrite create_run, Hp.
  rewrite (send_put_ready (put_of w v) (set_drawn (S (drawn w)) w) name k table)
    by assumption.
  reflexivity.
Qed.

(** A call that does not return 200 leaves the tables as they were. *)
Lemma create_tables_unchanged (request : option jsstring) (w : World) :
  (forall w', create request w <> (Returned post_created, w')) ->
  tables (create request w).2 = tables w.
Proof.
  rewrite create_run. destruct (parsed_body request) as [v|]; [|reflexivity].
  destruct (send_put (put_of w v) (set_drawn (S (drawn w)) w))
    as [[[]|e] w1] eqn:Hs.
  - intros H. destruct (H w1). reflexivity.
  - intros _. apply (send_put_thrown _ _ _ _ Hs).
Qed.

(** X4. When [create] returns, the response is one of two fixed
    responses, 400 for a falsy body and 200 otherwise; its body is the
    JSON text of an object with the one field [message], so it never
    tells the identifier drawn; and a 400 comes with no command sent and
    no table changed. *)
Theorem create_response (request : option jsstring) (w w' : World)
    (r : Response) :
  create request w = (Returned r, w') ->
  r = (if falsy request then missing_body else post_created)
  /\ (exists m, JSON_parse (body r) = Some (JObj [(str "message", JStr m)]))
  /\ (statusCode r = 400 -> sent w' = sent w /\ tables w' = tables w).
Proof.
  rewrite create_run. unfold parsed_body.
  destruct (falsy request) eqn:Hf.
  - intros [= <- <-]. split; [reflexivity|]. split.
    + eexists. reflexivity.
    + intros _. split; reflexivity.
  - destruct (JSON_parse (default [] request)) as [v|]; [|discriminate].
    destruct (send_put (put_of w v) (set_drawn (S (drawn w)) w))
      as [[[]|e] w1]; [|discriminate].
    intros [= <- <-]. split; [reflexivity|]. split.
    + eexists. reflexivity.
    + intros [=].
Qed.

Lemma create_response_witness :
  missing_body = (if falsy None then missing_body else post_created)
  /\ (exists m, JSON_parse (body missing_body) = Some (JObj [(str "message", JStr m)]))
  /\ (statusCode missing_body = 400 ->
      sent (set_drawn 1 demo_world) = sent demo_world
      /\ tables (set_drawn 1 demo_world) = tables demo_world).
Proof.
  apply (create_response None demo_world (set_drawn 1 demo_world) missing_body).
  reflexivity.
Defined.

(** X5. [create] changes one record at most: the record under every
    other key, and in every other table, is after the call what it was
    before it. *)
Theorem create_leaves_other_records (request : option jsstring) (w : World)
    (name k : jsstring) :
  (forall v,
     parsed_body request = Some v ->
     env w !! str "TABLE_NAME" = Some name ->
     key_of (new_item (next_uuid w) v) <> Some k) ->
  record_at (tables (create request w).2) name k = record_at (tables w) name k.
Proof.
  intros H. destruct (create request w) as [[r|e] w'] eqn:Hc; simpl.
  - destruct (parsed_body request) as [v|] eqn:Hp.
    + destruct (create_returned_parsed request v w w' r Hp Hc)
        as (_ & n & table & k0 & Hn & Ht & Hk & _ & ->).
      simpl. unfold record_at.
      destruct (decide (n = name)) as [->|Hne].
      * rewrite lookup_insert_eq, Ht.
        apply lookup_insert_ne. intros ->. apply (H v eq_refl Hn). exact Hk.
      * rewrite lookup_insert_ne by exact Hne. reflexivity.
    + revert Hc. rewrite create_run, Hp. intros [= _ <-]. reflexivity.
  - assert (Ht : tables (create request w).2 = tables w).
    { apply create_tables_unchanged. intros w1. rewrite Hc. discriminate. }
    rewrite Hc in Ht. simpl in Ht. rewrite Ht. reflexivity.
Qed.

Lemma create_leaves_other_records_witness :
  record_at (tables (create (Some demo_text) demo_world).2)
    (str "RestAPI-DbTable") (str "POST#other")
  = record_at (tables demo_world) (str "RestAPI-DbTable") (str "POST#other").
Proof.
  apply (create_leaves_other_records (Some demo_text) demo_world).
  intros v Hv _. vm_compute in Hv. injection Hv as <-. vm_compute. discriminate.
Defined.

(** X6. [create] neither makes nor drops a table: the tables of the
    store have the same names after every call. *)
Theorem create_keeps_the_tables (request : option jsstring) (w : World) :
  dom (tables (create request w).2) = dom (tables w).
Proof.
  destruct (create request w) as [[r|e] w'] eqn:Hc; simpl.
  - destruct (parsed_body request) as [v|] eqn:Hp.
    + destruct (create_returned_parsed request v w w' r Hp Hc)
        as (_ & n & table & k0 & Hn & Ht & Hk & _ & ->).
      simpl. apply dom_insert_lookup_L. rewrite Ht. eauto.
    + revert Hc. rewrite create_run, Hp. intros [= _ <-]. reflexivity.
  - assert (Ht : tables (create request w).2 = tables w).
    { apply create_tables_unchanged. intros w1. rewrite Hc. discriminate. }
    rewrite Hc in Ht. simpl in Ht. rewrite Ht. reflexivity.
Qed.

(** The key of a record depends on the tables in no way. *)
Lemma put_item_is_Some (input : PutCommandInput) (db1 db2 : gmap jsstring Table) :
  (forall name, is_Some (db1 !! name) <-> is_Some (db2 !! name)) ->
  match put_item input db1, put_item input db2 with
  | inl e1, inl e2 => e1 = e2
  | inr _, inr _ => True
  | _, _ => False
  end.
Proof.
  intros H. unfold put_item. destruct (TableName input) as [name|]; [|reflexivity].
  specialize (H name).
  destruct (db1 !! name) as [t1|], (db2 !! name) as [t2|].
  - destruct (key_of (Item_ input)); [exact I | reflexivity].
  - destruct (proj1 H (mk_is_Some _ _ eq_refl)) as [x [=]].
  - destruct (proj2 H (mk_is_Some _ _ eq_refl)) as [x [=]].
  - reflexivity.
Qed.

(** X7. [create] reads no record: with the same tables holding other
    records, the outcome of a call, its response or its error, is the
    same. *)
Theorem create_ignores_stored_records (request : option jsstring) (w : World)
    (db : gmap jsstring Table) :
  (forall name, is_Some (db !! name) <-> is_Some (tables w !! name)) ->
  (create request (set_tables db w)).1 = (create request w).1.
Proof.
  intros H. rewrite !create_run.
  destruct (parsed_body request) as [v|]; [|reflexivity].
  change (put_of (set_tables db w) v) with (put_of w v).
  unfold send_put. simpl.
  destruct (faults w (length (sent w))); [reflexivity|].
  pose proof (put_item_is_Some (put_of w v) db (tables w) H) as Hp.
  destruct (put_item (put_of w v) db), (put_item (put_of w v) (tables w));
    simpl; try contradiction; congruence.
Qed.

Lemma create_ignores_stored_records_witness :
  (create (Some demo_text)
     (set_tables {[ str "RestAPI-DbTable" := {[ str "POST#mine" := pk_record ]} ]}
        demo_world)).1
  = (create (Some demo_text) demo_world).1.
Proof.
  apply (create_ignores_stored_records (Some demo_text) demo_world).
  intros name. destruct (decide (name = str "RestAPI-DbTable")) as [->|Hne].
  - split; intros _; vm_compute; eauto.
  - unfold demo_world. simpl. rewrite !lookup_singleton_ne by congruence.
    reflexivity.
Defined.

(** X8. When the variable [TABLE_NAME] is not set, or names no table of
    the store, a call whose body parses fails with an error of the store:
    it returns no response, and no table changes. *)
Theorem create_without_table (request : option jsstring) (v : json) (w : World) :
  parsed_body request = Some v ->
  (forall name, env w !! str "TABLE_NAME" = Some name -> tables w !! name = None) ->
  exists cause,
    create request w
    = (Thrown (StoreFailure cause),
       set_sent (sent w ++ [PutCommand (put_of w v)]) (set_drawn (S (drawn w)) w)).
Proof.
  intros Hp Hn. rewrite create_run, Hp. unfold send_put, put_item. simpl.
  destruct (faults w (length (sent w))) as [c|]; [eauto|].
  destruct (env w !! str "TABLE_NAME") as [name|] eqn:He; [|eauto].
  rewrite (Hn name eq_refl). eauto.
Qed.

Lemma create_without_table_witness :
  exists cause,
    create (Some demo_text) (set_env ∅ demo_world)
    = (Thrown (StoreFailure cause),
       set_sent (sent (set_env ∅ demo_world)
                 ++ [PutCommand (put_of (set_env ∅ demo_world) (post_json demo_post))])
         (set_drawn (S (drawn (set_env ∅ demo_world))) (set_env ∅ demo_world))).
Proof.
  apply (create_without_table (Some demo_text) (post_json demo_post)
           (set_env ∅ demo_world)).
  - vm_compute. reflexivity.
  - intros name H. vm_compute in H. discriminate.
Defined.

(** X9. A body whose property [pk] is anything but a string that is not
    empty cannot be stored: the call fails with an error of the store and
    no table changes. *)
Theorem create_rejects_unusable_key (request : option jsstring) (v x : json)
    (w : World) :
  parsed_body request = Some v ->
  property v (str "pk") = Some x ->
  (forall c k, x <> JStr (c :: k)) ->
  exists cause,
    create request w
    = (Thrown (StoreFailure cause),
       set_sent (sent w ++ [PutCommand (put_of w v)]) (set_drawn (S (drawn w)) w)).
Proof.
  intros Hp Hx Hbad. rewrite create_run, Hp.
  assert (Hk : key_of (Item_ (put_of w v)) = None).
  { unfold key_of. change partition_key with (str "pk"). simpl.
    rewrite (key_from_body v x _ Hx).
    destruct x as [| | |[|c k]| |]; try reflexivity. destruct (Hbad c k eq_refl). }
  unfold send_put, put_item.
  destruct (faults _ _) as [c|]; [eauto|].
  destruct (TableName (put_of w v)) as [name|]; [|eauto].
  destruct (tables _ !! name); [|eauto].
  rewrite Hk. eauto.
Qed.

Lemma create_rejects_unusable_key_witness :
  exists cause,
    create (Some number_pk_text) demo_world
    = (Thrown (StoreFailure cause),
       set_sent (sent demo_world
                 ++ [PutCommand (put_of demo_world (JObj [(str "pk", JNum (str "5"))]))])
         (set_drawn (S (drawn demo_world)) demo_world)).
Proof.
  apply (create_rejects_unusable_key (Some number_pk_text)
           (JObj [(str "pk", JNum (str "5"))]) (JNum (str "5")) demo_world).
  - vm_compute. reflexivity.
  - vm_compute. reflexivity.
  - discriminate.
Defined.

(** X10. A body that parses to a value with no property of its own, such
    as [null], a number, [true], an empty object or an empty array, is
    accepted: with the store ready, [create] returns 200 and stores a
    record that has the attribute [pk] alone. *)
Theorem create_fieldless_body (request : option jsstring) (v : json) (w : World)
    (name : jsstring) (table : Table) :
  parsed_body request = Some v ->
  own_props v = [] ->
  store_ready w name table ->
  exists w',
    create request w = (Returned post_created, w')
    /\ tables w'
       = <[name := <[POST_prefix ++ next_uuid w
                     := {[ str "pk" := JStr (POST_prefix ++ next_uuid w) ]}]> table]>
           (tables w).
Proof.
  intros Hp Hv Hr.
  assert (Hi : new_item (next_uuid w) v
               = {[ str "pk" := JStr (POST_prefix ++ next_uuid w) ]}).
  { unfold new_item, spread. rewrite Hv. reflexivity. }
  rewrite (create_ready request v w name (POST_prefix ++ next_uuid w) table Hp Hr).
  - eexists. split; [reflexivity|]. simpl. rewrite Hi. reflexivity.
  - apply key_of_post. rewrite Hi. apply lookup_singleton_eq.
Qed.

Lemma create_fieldless_body_witness :
  exists w',
    create (Some (str "null")) demo_world = (Returned post_created, w')
    /\ tables w'
       = <[str "RestAPI-DbTable"
           := <[POST_prefix ++ next_uuid demo_world
                := {[ str "pk" := JStr (POST_prefix ++ next_uuid demo_world) ]}]> ∅]>
           (tables demo_world).
Proof.
  apply (create_fieldless_body (Some (str "null")) JNull demo_world).
  - vm_compute. reflexivity.
  - reflexivity.
  - repeat split; vm_compute; reflexivity.
Defined.

(** Blank text gives no token. *)
Lemma lex_blank (text : jsstring) :
  forallb Lexer.is_ws text = true -> Lexer.lex Lexer.LIdle text = Some [].
Proof.
  induction text as [|c text IH]; [reflexivity|]. simpl.
  intros H. apply andb_true_iff in H as [Hc Ht].
  unfold Lexer.idle_step. rewrite Hc, (IH Ht). reflexivity.
Qed.

(** X11. A body made of white space only is not taken for a missing
    body: the guard lets it through, [JSON.parse] rejects it, and the call
    fails with a [SyntaxError], with nothing sent to the store. *)
Theorem create_blank_body (text : jsstring) (w : World) :
  text <> [] ->
  forallb Lexer.is_ws text = true ->
  create (Some text) w = (Thrown SyntaxError, set_drawn (S (drawn w)) w).
Proof.
  intros Hne Hb. apply create_unparsed; [exact Hne|].
  unfold JSON_parse, Lexer.tokenize. rewrite (lex_blank text Hb). reflexivity.
Qed.

Lemma create_blank_body_witness :
  create (Some (str "  ")) demo_world
  = (Thrown SyntaxError, set_drawn (S (drawn demo_world)) demo_world).
Proof.
  apply (create_blank_body (str "  ") demo_world).
  - discriminate.
  - reflexivity.
Defined.

(** X12. For every payload whose four strings are texts, whatever
    quotes, backslashes and control characters they hold: when the body is
    the text [JSON.stringify] gives for the payload and [create] returns,
    the response is 200 and the table holds, under the prefix followed by
    the identifier drawn, the four fields as they were given and the
    attribute [pk]. *)
Theorem create_stringified_payload (P : IPost) (w w' : World) (r : Response) :
  text_payload P = true ->
  create (Some (JSON_stringify (post_json P))) w = (Returned r, w') ->
  r = post_created
  /\ exists name table,
       env w !! str "TABLE_NAME" = Some name
       /\ tables w !! name = Some table
       /\ tables w'
          = <[name := <[POST_prefix ++ next_uuid w
                        := <[str "pk" := JStr (POST_prefix ++ next_uuid w)]>
                             (post_fields P)]> table]>
              (tables w).
Proof.
  intros _ Hc.
  assert (Hp : parsed_body (Some (JSON_stringify (post_json P)))
               = Some (post_json P)).
  { unfold parsed_body. change (falsy (Some (JSON_stringify (post_json P)))) with false.
    apply JSON_parse_stringify_post. }
  pose proof (new_item_payload P (post_json P) (next_uuid w)
                (post_json_is_payload P)) as Hi.
  destruct (create_returned_parsed _ (post_json P) w w' r Hp Hc)
    as (-> & name & table & k & Hn & Ht & Hk & _ & ->).
  split; [reflexivity|]. exists name, table. split; [exact Hn|]. split; [exact Ht|].
  rewrite (key_of_post _ (next_uuid w)) in Hk
    by (rewrite Hi; apply lookup_insert_eq).
  assert (Hk' : k = POST_prefix ++ next_uuid w) by congruence.
  subst k. simpl. rewrite Hi. reflexivity.
Qed.

Lemma create_stringified_payload_witness :
  post_created = post_created
  /\ exists name table,
       env demo_world !! str "TABLE_NAME" = Some name
       /\ tables demo_world !! name = Some table
       /\ tables (after_send demo_world (post_json demo_post))
          = <[name := <[POST_prefix ++ next_uuid demo_world
                        := <[str "pk" := JStr (POST_prefix ++ next_uuid demo_world)]>
                             (post_fields demo_post)]> table]>
              (tables demo_world).
Proof.
  apply (create_stringified_payload demo_post demo_world
           (after_send demo_world (post_json demo_post)) post_created).
  - vm_compute. reflexivity.
  - vm_compute. reflexivity.
Defined.

(** ** Two calls in a row *)

(** The same, field by field. *)
Lemma create_returned_fields (request : option jsstring) (v : json)
    (w w' : World) (r : Response) :
  parsed_body request = Some v ->
  create request w = (Returned r, w') ->
  r = post_created
  /\ env w' = env w
  /\ next_uuid w' = uuids w (S (drawn w))
  /\ exists name table k,
       env w !! str "TABLE_NAME" = Some name
       /\ tables w !! name = Some table
       /\ key_of (new_item (next_uuid w) v) = Some k
       /\ tables w' = <[name := <[k := new_item (next_uuid w) v]> table]> (tables w).
Proof.
  intros Hp Hc.
  destruct (create_returned_parsed request v w w' r Hp Hc)
    as (-> & name & table & k & Hn & Ht & Hk & _ & ->).
  split; [reflexivity|]. split; [reflexivity|]. split; [reflexivity|].
  exists name, table, k. auto.
Qed.

(** X13. Two calls of [create] that both return, on bodies with no
    property [pk], for which [randomUUID] gives two different identifiers:
    after the second call the table holds both records, each under its own
    key. *)
Theorem creates_accumulate (b1 b2 : option jsstring) (v1 v2 : json)
    (w w1 w2 : World) (r1 r2 : Response) :
  parsed_body b1 = Some v1 ->
  parsed_body b2 = Some v2 ->
  property v1 (str "pk") = None ->
  property v2 (str "pk") = None ->
  uuids w (drawn w) <> uuids w (S (drawn w)) ->
  create b1 w = (Returned r1, w1) ->
  create b2 w1 = (Returned r2, w2) ->
  exists name,
    env w !! str "TABLE_NAME" = Some name
    /\ record_at (tables w2) name (POST_prefix ++ uuids w (drawn w))
       = Some (new_item (uuids w (drawn w)) v1)
    /\ record_at (tables w2) name (POST_prefix ++ uuids w (S (drawn w)))
       = Some (new_item (uuids w (S (drawn w))) v2).
Proof.
  intros Hp1 Hp2 Hk1 Hk2 Hne Hc1 Hc2.
  destruct (create_returned_fields b1 v1 w w1 r1 Hp1 Hc1)
    as (_ & He1 & Hu1 & name & table & k1 & Hn & Ht & Hkey1 & Hw1).
  destruct (create_returned_fields b2 v2 w1 w2 r2 Hp2 Hc2)
    as (_ & _ & _ & name' & table' & k2 & Hn' & Ht' & Hkey2 & Hw2).
  rewrite He1 in Hn'. assert (name' = name) by congruence. subst name'.
  rewrite Hw1, lookup_insert_eq in Ht'.
  rewrite Hu1 in Hkey2, Hw2. unfold next_uuid in Hkey1, Hw1, Ht'.
  rewrite (key_of_post _ (uuids w (drawn w))) in Hkey1
    by (rewrite new_item_lookup, Hk1; reflexivity).
  rewrite (key_of_post _ (uuids w (S (drawn w)))) in Hkey2
    by (rewrite new_item_lookup, Hk2; reflexivity).
  assert (k1 = POST_prefix ++ uuids w (drawn w)) by congruence.
  assert (k2 = POST_prefix ++ uuids w (S (drawn w))) by congruence.
  subst k1 k2. clear Hkey1 Hkey2.
  assert (table' = <[POST_prefix ++ uuids w (drawn w)
                     := new_item (uuids w (drawn w)) v1]> table) by congruence.
  subst table'.
  exists name. split; [exact Hn|].
  unfold record_at. rewrite Hw2, lookup_insert_eq. split.
  - rewrite lookup_insert_ne; [apply lookup_insert_eq|].
    intros H. apply app_inv_head in H. congruence.
  - apply lookup_insert_eq.
Qed.

(** X14. Two calls of [create] that both return and whose records have
    the same key, be it that [randomUUID] gave the same identifier twice
    or that both bodies carry the same [pk]: the second record takes the
    place of the first, and the tables are as if the first call had stored
    nothing.  No call looks for a record under the key it writes. *)
Theorem create_replaces_record_under_same_key (b1 b2 : option jsstring)
    (v1 v2 : json) (w w1 w2 : World) (r1 r2 : Response) :
  parsed_body b1 = Some v1 ->
  parsed_body b2 = Some v2 ->
  key_of (new_item (next_uuid w) v1) = key_of (new_item (next_uuid w1) v2) ->
  create b1 w = (Returned r1, w1) ->
  create b2 w1 = (Returned r2, w2) ->
  r1 = post_created /\ r2 = post_created
  /\ exists name table k,
       env w !! str "TABLE_NAME" = Some name
       /\ tables w !! name = Some table
       /\ key_of (new_item (next_uuid w1) v2) = Some k
       /\ tables w2 = <[name := <[k := new_item (next_uuid w1) v2]> table]> (tables w).
Proof.
  intros Hp1 Hp2 Hsame Hc1 Hc2.
  destruct (create_returned_fields b1 v1 w w1 r1 Hp1 Hc1)
    as (-> & He1 & _ & name & table & k1 & Hn & Ht & Hkey1 & Hw1).
  destruct (create_returned_fields b2 v2 w1 w2 r2 Hp2 Hc2)
    as (-> & _ & _ & name' & table' & k2 & Hn' & Ht' & Hkey2 & Hw2).
  split; [reflexivity|]. split; [reflexivity|].
  assert (k2 = k1) by congruence. subst k2.
  rewrite He1 in Hn'. assert (name' = name) by congruence. subst name'.
  rewrite Hw1, lookup_insert_eq in Ht'.
  assert (table' = <[k1 := new_item (next_uuid w) v1]> table) by congruence.
  subst table'.
  exists name, table, k1. repeat split; try assumption.
  rewrite Hw2, Hw1, insert_insert_eq, insert_insert_eq. reflexivity.
Qed.

Lemma creates_accumulate_witness :
  exists name,
    env demo_world !! str "TABLE_NAME" = Some name
    /\ record_at
         (tables (create (Some id_text) (create (Some demo_text) demo_world).2).2)
         name (POST_prefix ++ uuids demo_world (drawn demo_world))
       = Some (new_item (uuids demo_world (drawn demo_world)) (post_json demo_post))
    /\ record_at
         (tables (create (Some id_text) (create (Some demo_text) demo_world).2).2)
         name (POST_prefix ++ uuids demo_world (S (drawn demo_world)))
       = Some (new_item (uuids demo_world (S (drawn demo_world)))
                 (JObj [(str "id", JStr (str "7")); (str "title", JStr (str "A"))])).
Proof.
  apply (creates_accumulate (Some demo_text) (Some id_text)
           (post_json demo_post)
           (JObj [(str "id", JStr (str "7")); (str "title", JStr (str "A"))])
           demo_world (create (Some demo_text) demo_world).2
           (create (Some id_text) (create (Some demo_text) demo_world).2).2
           post_created post_created).
  - vm_compute. reflexivity.
  - vm_compute. reflexivity.
  - vm_compute. reflexivity.
  - vm_compute. reflexivity.
  - vm_compute. discriminate.
  - vm_compute. reflexivity.
  - vm_compute. reflexivity.
Defined.

Lemma create_replaces_record_under_same_key_witness :
  post_created = post_created /\ post_created = post_created
  /\ exists name table k,
       env stuck_world !! str "TABLE_NAME" = Some name
       /\ tables stuck_world !! name = Some table
       /\ key_of (new_item (next_uuid (create (Some demo_text) stuck_world).2)
                    (JObj [(str "id", JStr (str "7")); (str "title", JStr (str "A"))]))
          = Some k
       /\ tables (create (Some id_text) (create (Some demo_text) stuck_world).2).2
          = <[name := <[k := new_item
                               (next_uuid (create (Some demo_text) stuck_world).2)
                               (JObj [(str "id", JStr (str "7"));
                                      (str "title", JStr (str "A"))])]> table]>
              (tables stuck_world).
Proof.
  apply (create_replaces_record_under_same_key (Some demo_text) (Some id_text)
           (post_json demo_post)
           (JObj [(str "id", JStr (str "7")); (str "title", JStr (str "A"))])
           stuck_world (create (Some demo_text) stuck_world).2
           (create (Some id_text) (create (Some demo_text) stuck_world).2).2
           post_created post_created).
  - vm_compute. reflexivity.
  - vm_compute. reflexivity.
  - vm_compute. reflexivity.
  - vm_compute. reflexivity.
  - vm_compute. reflexivity.
Defined.

(** ** Bodies that are no objects *)

Lemma str_inj (s1 s2 : string) : str s1 = str s2 -> s1 = s2.
Proof.
  revert s2. induction s1 as [|a s1 IH]; intros [|b s2]; try discriminate.
  - reflexivity.
  - unfold str. simpl. intros [= Ha Hs]. f_equal.
    + rewrite <- (ascii_N_embedding a), <- (ascii_N_embedding b), Ha. reflexivity.
    + apply IH. exact Hs.
Qed.

Lemma pretty_N_char_digit (x : N) :
  Lexer.is_digit (N_of_ascii (pretty_N_char x)) = true.
Proof.
  unfold pretty_N_char.
  repeat match goal with
         | |- context [match ?y with _ => _ end] => destruct y; try reflexivity
         end.
Qed.

Lemma pretty_N_go_digits (x : N) :
  forall s,
    Forall (fun c => Lexer.is_digit c = true) (str s) ->
    Forall (fun c => Lexer.is_digit c = true) (str (pretty_N_go x s)).
Proof.
  induction (N.lt_wf_0 x) as [x _ IH]. intros s Hs.
  assert (x = 0 \/ 0 < x) as [->|Hx] by lia.
  - rewrite pretty_N_go_0. exact Hs.
  - rewrite pretty_N_go_step by exact Hx. apply IH.
    + apply N.div_lt; lia.
    + unfold str. simpl. constructor; [apply pretty_N_char_digit | exact Hs].
Qed.

(** The decimal text of an index is made of digits. *)
Lemma index_digits (i : nat) :
  Forall (fun c => Lexer.is_digit c = true) (str (pretty i)).
Proof.
  unfold pretty, pretty_nat, pretty, pretty_N.
  destruct (decide (N.of_nat i = 0)).
  - repeat constructor.
  - apply pretty_N_go_digits. constructor.
Qed.

Lemma index_inj (i j : nat) : str (pretty i) = str (pretty j) -> i = j.
Proof. intros H. apply str_inj in H. apply (inj pretty). exact H. Qed.

Lemma index_not_pk (i : nat) : str (pretty i) <> str "pk".
Proof.
  intros H. pose proof (index_digits i) as Hd. rewrite H in Hd.
  inversion Hd as [|c l Hc _]. discriminate Hc.
Qed.

(** The entries of a list under the texts of their indices. *)
Lemma assoc_last_indexed {A} (items : list A) :
  forall (f : nat -> A -> jsstring * json) (k : jsstring),
    (forall i x, (f i x).1 <> k) ->
    assoc_last (imap f items) k = None.
Proof.
  induction items as [|x items IH]; intros f k Hk; [reflexivity|].
  simpl. rewrite (IH (f ∘ S) k) by (intros i y; apply Hk).
  specialize (Hk 0%nat x). destruct (f 0%nat x) as [k' y].
  destruct (decide (k' = k)) as [E|_]; [destruct (Hk E)|reflexivity].
Qed.

Lemma assoc_last_index (items : list json) :
  forall (f : nat -> json -> jsstring * json) (g : nat -> jsstring) (i : nat),
    (forall j x, f j x = (g j, x)) ->
    (forall a b, g a = g b -> a = b) ->
    assoc_last (imap f items) (g i) = items !! i.
Proof.
  induction items as [|x items IH]; intros f g i Hf Hg; [reflexivity|].
  simpl. rewrite Hf. destruct i as [|i].
  - rewrite (assoc_last_indexed items (f ∘ S) (g 0%nat)).
    + destruct (decide (g 0%nat = g 0%nat)); [reflexivity|contradiction].
    + intros j y E. simpl in E. rewrite Hf in E. apply Hg in E. discriminate.
  - change (g (S i)) with ((g ∘ S) i) at 1.
    rewrite (IH (f ∘ S) (g ∘ S) i)
      by (try (intros j y; apply Hf); intros a b E; apply Hg in E; congruence).
    simpl. destruct (items !! i); [reflexivity|].
    destruct (decide (g 0%nat = g (S i))) as [E|_]; [|reflexivity].
    apply Hg in E. discriminate.
Qed.

(** X16. A body that is a JSON array is accepted like an object: its
    record holds each element under the decimal text of its index, and
    the attribute [pk] is the one of the handler, which an array cannot
    replace. *)
Theorem create_array_body (text : jsstring) (items : list json) (w : World) :
  JSON_parse text = Some (JArr items) ->
  sent (create (Some text) w).2 = sent w ++ [PutCommand (put_of w (JArr items))]
  /\ (forall i, Item_ (put_of w (JArr items)) !! str (pretty i) = items !! i)
  /\ Item_ (put_of w (JArr items)) !! str "pk"
     = Some (JStr (POST_prefix ++ next_uuid w)).
Proof.
  intros Hp. split; [|split].
  - rewrite (create_parsed text _ w Hp).
    pose proof (send_put_sent (put_of w (JArr items)) (set_drawn (S (drawn w)) w)) as H.
    destruct (send_put _ _) as [[[]|e] w']; exact H.
  - intros i. simpl. rewrite new_item_lookup. unfold property. simpl own_props.
    rewrite (assoc_last_index items _ (fun j => str (pretty j)) i)
      by (try reflexivity; intros a b; apply index_inj).
    destruct (items !! i) eqn:E; [reflexivity|].
    destruct (decide (str (pretty i) = str "pk")) as [E'|_]; [|reflexivity].
    destruct (index_not_pk i E').
  - simpl. rewrite new_item_lookup. unfold property. simpl own_props.
    rewrite (assoc_last_indexed items _ (str "pk"))
      by (intros i x; apply index_not_pk).
    reflexivity.
Qed.

Lemma create_array_body_witness :
  sent (create (Some (str "[1,true]")) demo_world).2
  = sent demo_world
    ++ [PutCommand (put_of demo_world (JArr [JNum (str "1"); JBool true]))]
  /\ (forall i,
        Item_ (put_of demo_world (JArr [JNum (str "1"); JBool true])) !! str (pretty i)
        = [JNum (str "1"); JBool true] !! i)
  /\ Item_ (put_of demo_world (JArr [JNum (str "1"); JBool true])) !! str "pk"
     = Some (JStr (POST_prefix ++ next_uuid demo_world)).
Proof.
  apply (create_array_body (str "[1,true]") [JNum (str "1"); JBool true] demo_world).
  reflexivity.
Defined.

(** X17. Only a body that parses to an object can choose the key: for
    an array, a string, a number, a boolean or [null] the key of the record
    is the prefix followed by the identifier drawn. *)
Theorem key_is_generated_unless_object (request : option jsstring) (v : json)
    (w : World) :
  parsed_body request = Some v ->
  (forall props, v <> JObj props) ->
  sent (create request w).2 = sent w ++ [PutCommand (put_of w v)]
  /\ key_of (Item_ (put_of w v)) = Some (POST_prefix ++ next_uuid w).
Proof.
  intros Hp Hv. split.
  - rewrite create_run, Hp.
    pose proof (send_put_sent (put_of w v) (set_drawn (S (drawn w)) w)) as H.
    destruct (send_put _ _) as [[[]|e] w']; exact H.
  - apply key_of_post. simpl. rewrite new_item_lookup.
    assert (Hk : property v (str "pk") = None).
    { unfold property. destruct v as [| | |s|items|props]; try reflexivity.
      - apply assoc_last_indexed. intros i c. apply index_not_pk.
      - apply assoc_last_indexed. intros i x. apply index_not_pk.
      - destruct (Hv props eq_refl). }
    rewrite Hk. reflexivity.
Qed.

Lemma key_is_generated_unless_object_witness :
  sent (create (Some (dq "pk")) demo_world).2
  = sent demo_world ++ [PutCommand (put_of demo_world (JStr (str "pk")))]
  /\ key_of (Item_ (put_of demo_world (JStr (str "pk"))))
     = Some (POST_prefix ++ next_uuid demo_world).
Proof.
  apply (key_is_generated_unless_object (Some (dq "pk")) (JStr (str "pk")) demo_world).
  - vm_compute. reflexivity.
  - discriminate.
Defined.

(** ** More on the stack *)

(** X18. Every function that a method of the API reaches is wired to the
    table of the stack: it gets the name of the table in [TABLE_NAME], the
    one variable that [create] reads, the partition key of that table is
    the string attribute [pk] that [create] writes, and the function may
    read and write the table. *)
Theorem handlers_are_wired_to_the_table :
  Forall (fun e => wired Cdk.RestApiStack e.1.2)
    (Cdk.handler_endpoints Cdk.RestApiStack).
Proof.
  assert (Hposts : wired Cdk.RestApiStack (str "PostsLambda")).
  { eexists _, (str "DbTable"), _. split; [|split; [|split; [|split; [|split]]]].
    - apply list_elem_of_here.
    - reflexivity.
    - apply list_elem_of_here.
    - reflexivity.
    - reflexivity.
    - apply list_elem_of_here. }
  assert (Hpost : wired Cdk.RestApiStack (str "PostLambda")).
  { eexists _, (str "DbTable"), _. split; [|split; [|split; [|split; [|split]]]].
    - apply list_elem_of_further, list_elem_of_here.
    - reflexivity.
    - apply list_elem_of_here.
    - reflexivity.
    - reflexivity.
    - apply list_elem_of_further, list_elem_of_here. }
  repeat constructor; assumption.
Qed.

(** X19. The methods of the API that ask for no key are the [OPTIONS]
    methods that the CORS preflight options put on each of its three
    resources, and they reach no function. *)
Theorem only_preflight_is_open :
  open_methods Cdk.RestApiStack
  = [ ([], str "OPTIONS"); ([str "posts"], str "OPTIONS");
      ([str "posts"; str "{id}"], str "OPTIONS") ]
  /\ Cdk.resources Cdk.RestApiStack
     = [ []; [str "posts"]; [str "posts"; str "{id}"] ]
  /\ Forall (fun m => Cdk.apiKeyRequired m = false ->
                      Cdk.integration m = Cdk.MockIntegration)
       (Cdk.methods Cdk.RestApiStack).
Proof.
  split; [vm_compute; reflexivity|]. split; [vm_compute; reflexivity|].
  repeat constructor; simpl; try reflexivity; discriminate.
Qed.
